(** * Circuit breaker of service-governance (src/breaker.go)

    A shallow embedding of the breaker: its configuration, the per-resource
    records, the registry [R : map[string]*RPC], and the code that touches
    it: [getStatus], [setOpenStatus], [setFail], [setSucc] and one ticker
    pass of [autoHalfOpen].

    The registry stores *pointers* to records.  Whether a write reaches the
    registry depends on the pointer it goes through, so the embedding keeps
    an explicit store of [RPC] cells and lets the registry hold addresses
    into it.

    Part I holds the definitions, Part II the lemmas about them and the
    theorems C1 to C10. *)

From Stdlib Require Import ZArith Lia.
From stdpp Require Import base option list gmap strings fin_maps.

Local Open Scope Z_scope.

(** * Part I: definitions *)

(** ** Machine integers

    Go's [int] is 64 bits wide on the 64-bit targets, [int64] always is.
    Both wrap around silently on overflow. *)

Definition int_bits : Z := 64.
Definition int_min : Z := - 2 ^ (int_bits - 1).
Definition int_max : Z := 2 ^ (int_bits - 1) - 1.

Definition wrap (z : Z) : Z :=
  (z - int_min) mod 2 ^ int_bits + int_min.

Definition in_int (z : Z) : Prop := int_min <= z <= int_max.

(** [x++] *)
Definition incr (x : Z) : Z := wrap (x + 1).

(** [x + y] on [int64] *)
Definition add64 (x y : Z) : Z := wrap (x + y).

(** ** Data model *)

Record Config := mkConfig {
  FailThreshold : Z;
  SuccThreshold : Z;
  OpenTimeout : Z
}.

Inductive BreakerStatus := CloseStatus | HalfOpenStatus | OpenStatus.

Global Instance BreakerStatus_eq_dec : EqDecision BreakerStatus.
Proof. solve_decision. Defined.

Record RPC := mkRPC {
  Status : BreakerStatus;
  FailCount : Z;
  SuccCount : Z;
  OpenTime : Z
}.

(** A [*RPC]: nil, or the address of a cell of the store. *)
Inductive Ptr := Nil | Addr (a : nat).

(** The [Breaker] struct.  Its [Config] field points to a structure that
    no code of the package writes to; it is taken to be non-nil and kept
    by value.  The mutex serialises the callers and carries no data: every
    method body below is one atomic step. *)
Record Breaker := mkBreaker {
  Conf : Config;
  R : gmap string Ptr
}.

(** The memory reachable from one [*Breaker]: the [RPC] cells allocated so
    far (the address of a cell is its index) and the struct itself. *)
Record Mem := mkMem {
  cells : list RPC;
  breaker : Breaker
}.

(** ** A state-and-panic monad for the method bodies

    [None] is a run-time panic (a nil dereference). *)

Definition M (A : Type) : Type := Mem -> option (A * Mem).

Definition ret {A} (x : A) : M A := fun m => Some (x, m).

Definition bind {A B} (c : M A) (k : A -> M B) : M B :=
  fun m => match c m with
           | Some (x, m') => k x m'
           | None => None
           end.

Definition panic {A} : M A := fun _ => None.

Declare Scope go_scope.
Delimit Scope go_scope with go.
Notation "'let*' x ':=' c 'in' k" := (bind c (fun x => k))
  (at level 10, x name, c at level 100, k at level 200) : go_scope.
Notation "c ';;' k" := (bind c (fun _ => k))
  (at level 100, k at level 200, right associativity) : go_scope.

Local Open Scope go_scope.

(** [&RPC{...}]: a new cell at the end of the store. *)
Definition new (v : RPC) : M Ptr :=
  fun m => Some (Addr (length (cells m)),
                 mkMem (cells m ++ [v]) (breaker m)).

(** [*p], read *)
Definition load (p : Ptr) : M RPC :=
  fun m => match p with
           | Nil => panic m
           | Addr a => match cells m !! a with
                       | Some v => ret v m
                       | None => panic m
                       end
           end.

(** [*p = v] *)
Definition store (p : Ptr) (v : RPC) : M unit :=
  fun m => match p with
           | Nil => panic m
           | Addr a => match cells m !! a with
                       | Some _ => ret tt (mkMem (<[a := v]> (cells m)) (breaker m))
                       | None => panic m
                       end
           end.

(** [breaker.Config] *)
Definition config : M Config := fun m => Some (Conf (breaker m), m).

(** [v, ok := breaker.R[r]] *)
Definition mapGet (r : string) : M (option Ptr) :=
  fun m => Some (R (breaker m) !! r, m).

(** [breaker.R[r]] as an expression: nil for a missing key *)
Definition mapIndex (r : string) : M Ptr :=
  fun m => Some (default Nil (R (breaker m) !! r), m).

(** [breaker.R[r] = p] *)
Definition mapSet (r : string) (p : Ptr) : M unit :=
  fun m => Some (tt, mkMem (cells m)
                       (mkBreaker (Conf (breaker m)) (<[r := p]> (R (breaker m))))).

(** ** The code *)

Definition isHalfOpen (rpc : RPC) : bool := bool_decide (Status rpc = HalfOpenStatus).
Definition isOpen (rpc : RPC) : bool := bool_decide (Status rpc = OpenStatus).
Definition isClose (rpc : RPC) : bool := bool_decide (Status rpc = CloseStatus).

(** [InitBreaker]: an empty registry.  The goroutine it starts is
    [autoHalfOpen]; its passes are steps of a history, see [Op]. *)
Definition InitBreaker (c : Config) : Mem :=
  mkMem [] (mkBreaker c ∅).

(** [getStatus] *)
Definition getStatus (r : string) : M BreakerStatus :=
  let* o := mapGet r in
  match o with
  | Some v => let* rpc := load v in ret (Status rpc)
  | None => ret CloseStatus
  end.

(** [setOpenStatus]: the parameter [rpc] is a local variable of the callee.
    The assignment gives it the address of a new cell and the function
    returns; neither the caller's pointer nor the cell it points to is
    written.  [now] is the value of [time.Now().Unix()]. *)
Definition setOpenStatus (now : Z) (rpc : Ptr) : M unit :=
  let* rpc' := new (mkRPC OpenStatus 0 0 now) in
  ret tt.

(** [setFail] *)
Definition setFail (now : Z) (r : string) : M unit :=
  let* o := mapGet r in
  match o with
  | Some v =>
      let* rpc := load v in
      if isHalfOpen rpc then
        let* p := mapIndex r in setOpenStatus now p
      else if isClose rpc then
        store v (mkRPC (Status rpc) (incr (FailCount rpc)) (SuccCount rpc) (OpenTime rpc)) ;;
        let* rpc1 := load v in
        let* c := config in
        if FailThreshold c <=? FailCount rpc1 then
          let* p := mapIndex r in setOpenStatus now p
        else ret tt
      else ret tt
  | None =>
      let* p := new (mkRPC CloseStatus 0 0 0) in
      mapSet r p ;;
      let* c := config in
      if FailThreshold c =? 1 then
        let* q := mapIndex r in setOpenStatus now q
      else
        let* q := mapIndex r in
        let* rpc := load q in
        store q (mkRPC (Status rpc) 1 (SuccCount rpc) (OpenTime rpc))
  end.

(** [setSucc] *)
Definition setSucc (r : string) : M unit :=
  let* o := mapGet r in
  match o with
  | Some v =>
      let* rpc := load v in
      if isHalfOpen rpc then
        store v (mkRPC (Status rpc) (FailCount rpc) (incr (SuccCount rpc)) (OpenTime rpc)) ;;
        let* rpc1 := load v in
        let* c := config in
        if SuccThreshold c <=? SuccCount rpc1 then
          let* p := new (mkRPC CloseStatus 0 0 0) in
          mapSet r p
        else ret tt
      else ret tt
  | None => ret tt
  end.

(** One entry of the [range] loop of [autoHalfOpen].  [nowTime] is the
    goroutine's local, read once before the loop starts. *)
Definition tickEntry (nowTime : Z) (rv : string * Ptr) : M unit :=
  let* rpc := load (snd rv) in
  let* c := config in
  if isOpen rpc && (nowTime <? add64 (OpenTime rpc) (OpenTimeout c)) then
    let* p := new (mkRPC HalfOpenStatus 0 0 0) in
    mapSet (fst rv) p
  else ret tt.

Fixpoint forEach {A} (body : A -> M unit) (l : list A) : M unit :=
  match l with
  | [] => ret tt
  | x :: l' => body x ;; forEach body l'
  end.

(** One [case <-ticker.C] of [autoHalfOpen]: the [range] over the registry.
    The body writes only the key it is visiting, so every entry is seen
    once with the value it had when the pass began. *)
Definition tickPass (nowTime : Z) : M unit :=
  fun m => forEach (tickEntry nowTime) (map_to_list (R (breaker m))) m.

(** ** Histories *)

(** The traffic a breaker sees: calls of the three methods by the
    application, and ticks of the goroutine. *)
Inductive Op :=
  | RecordFailure (now : Z) (r : string)
  | RecordSuccess (r : string)
  | GetStatus (r : string)
  | Tick.

Definition exec (nowTime : Z) (o : Op) : M unit :=
  match o with
  | RecordFailure now r => setFail now r
  | RecordSuccess r => setSucc r
  | GetStatus r => let* s := getStatus r in ret tt
  | Tick => tickPass nowTime
  end.

(** A finite history, from left to right. *)
Definition run (nowTime : Z) (ops : list Op) : M unit :=
  forEach (exec nowTime) ops.

(** [n] consecutive calls of the same method. *)
Fixpoint times (n : nat) (c : M unit) : M unit :=
  match n with
  | O => ret tt
  | S n' => c ;; times n' c
  end.

(** Consecutive failures reported for [r], one per element of [ts], the
    element being the clock reading of the call. *)
Definition failures (ts : list Z) (r : string) : M unit :=
  forEach (fun now => setFail now r) ts.

(** ** Vocabulary of the statements *)

(** The record the registry holds for [r], if any. *)
Definition record (m : Mem) (r : string) : option RPC :=
  match R (breaker m) !! r with
  | Some (Addr a) => cells m !! a
  | _ => None
  end.

(** What the package's own code maintains: every pointer in the registry
    is the address of an allocated cell, and no two keys share a cell. *)
Definition valid (m : Mem) : Prop :=
  (forall r p, R (breaker m) !! r = Some p ->
               exists a, p = Addr a /\ (a < length (cells m))%nat) /\
  (forall r1 r2 a, R (breaker m) !! r1 = Some (Addr a) ->
                   R (breaker m) !! r2 = Some (Addr a) -> r1 = r2).

Definition openRPC (now : Z) : RPC := mkRPC OpenStatus 0 0 now.
Definition zeroRPC : RPC := mkRPC CloseStatus 0 0 0.
Definition halfOpenRPC : RPC := mkRPC HalfOpenStatus 0 0 0.

Definition withFail (rpc : RPC) (n : Z) : RPC :=
  mkRPC (Status rpc) n (SuccCount rpc) (OpenTime rpc).
Definition withSucc (rpc : RPC) (n : Z) : RPC :=
  mkRPC (Status rpc) (FailCount rpc) n (OpenTime rpc).

(** The three shapes of memory change the method bodies produce: cells
    appended, one cell overwritten, a key bound to a new cell. *)
Definition extend (m : Mem) (l : list RPC) : Mem :=
  mkMem (cells m ++ l) (breaker m).
Definition poke (m : Mem) (a : nat) (v : RPC) : Mem :=
  mkMem (<[a := v]> (cells m)) (breaker m).
Definition rebind (m : Mem) (r : string) (v : RPC) (l : list RPC) : Mem :=
  mkMem (cells m ++ v :: l)
        (mkBreaker (Conf (breaker m))
           (<[r := Addr (length (cells m))]> (R (breaker m)))).

(** The record of a key after a call about it, as a function of the record
    before.  The lemmas [setFail_spec], [setSucc_spec] and [tickPass_spec]
    derive these from the method bodies. *)
Definition afterFail (c : Config) (o : option RPC) : RPC :=
  match o with
  | None => if FailThreshold c =? 1 then zeroRPC else withFail zeroRPC 1
  | Some rpc =>
      if isClose rpc then withFail rpc (incr (FailCount rpc)) else rpc
  end.

Definition afterSucc (c : Config) (rpc : RPC) : RPC :=
  if isHalfOpen rpc then
    if SuccThreshold c <=? incr (SuccCount rpc) then zeroRPC
    else withSucc rpc (incr (SuccCount rpc))
  else rpc.

Definition afterTick (c : Config) (nowTime : Z) (rpc : RPC) : RPC :=
  if isOpen rpc && (nowTime <? add64 (OpenTime rpc) (OpenTimeout c))
  then halfOpenRPC else rpc.

(** What holds of every record after [n] steps from [InitBreaker]: it is
    Closed, was never opened, has counted no success, and (while [n] fits
    an [int]) has counted at most [n] failures. *)
Definition idle (n : nat) (rpc : RPC) : Prop :=
  Status rpc = CloseStatus /\ OpenTime rpc = 0 /\ SuccCount rpc = 0 /\
  (Z.of_nat n <= int_max -> 0 <= FailCount rpc <= Z.of_nat n).

Definition all_idle (n : nat) (m : Mem) : Prop :=
  valid m /\ forall r rpc, record m r = Some rpc -> idle n rpc.

(** ** Sample inputs *)

(** The configuration of the scenario of the design document. *)
Definition scenario : Config := mkConfig 3 2 10.

(** A breaker that tracks exactly one resource. *)
Definition tracking (c : Config) (r : string) (rpc : RPC) : Mem :=
  mkMem [rpc] (mkBreaker c {[ r := Addr 0 ]}).

(** The number of calls after which an [int] counter that started at 1
    has wrapped around. *)
Definition overflow_calls : nat := Z.to_nat 9223372036854775808.

(** The number of failures a history reports for [r]. *)
Fixpoint failureCount (r : string) (ops : list Op) : nat :=
  match ops with
  | [] => O
  | RecordFailure _ r' :: ops' =>
      ((if decide (r' = r) then 1 else 0) + failureCount r ops')%nat
  | _ :: ops' => failureCount r ops'
  end.

(** A breaker that tracks two resources. *)
Definition tracking2 (c : Config) (r1 : string) (rpc1 : RPC)
    (r2 : string) (rpc2 : RPC) : Mem :=
  rebind (tracking c r1 rpc1) r2 rpc2 [].

(** * Part II: lemmas and theorems *)

Ltac run_monad :=
  unfold setOpenStatus;
  unfold new, load, store, config, mapGet, mapIndex, mapSet;
  unfold bind, ret, panic; simpl.

(** ** Machine arithmetic *)

Lemma int_constants :
  int_min = -9223372036854775808 /\ int_max = 9223372036854775807 /\
  2 ^ int_bits = 18446744073709551616.
Proof. repeat split; reflexivity. Qed.

Lemma wrap_small z : in_int z -> wrap z = z.
Proof.
  unfold in_int, wrap. destruct int_constants as (-> & -> & ->).
  intros Hz. rewrite Z.mod_small; lia.
Qed.

Lemma wrap_range z : in_int (wrap z).
Proof.
  unfold in_int, wrap. destruct int_constants as (-> & -> & ->).
  pose proof (Z.mod_pos_bound (z - -9223372036854775808) 18446744073709551616).
  lia.
Qed.

Lemma incr_wrap z : incr (wrap z) = wrap (z + 1).
Proof.
  unfold incr, wrap. destruct int_constants as (-> & _ & ->).
  f_equal.
  replace ((z - -9223372036854775808) mod 18446744073709551616
             + -9223372036854775808 + 1 - -9223372036854775808)
    with ((z - -9223372036854775808) mod 18446744073709551616 + 1) by lia.
  rewrite Zplus_mod_idemp_l. f_equal. lia.
Qed.

Lemma incr_small z : int_min <= z < int_max -> incr z = z + 1.
Proof.
  intros Hz. unfold incr. apply wrap_small. unfold in_int. lia.
Qed.

Lemma incr_max : incr int_max = int_min.
Proof. reflexivity. Qed.

(** ** Running the monad *)

Lemma bind_Some {A B} (c : M A) (k : A -> M B) m x m' :
  c m = Some (x, m') -> bind c k m = k x m'.
Proof. unfold bind. intros ->. reflexivity. Qed.

(** ** What each method does to the memory

    One equation per branch of the source, with the resulting memory
    written out. *)

Lemma getStatus_absent r m :
  R (breaker m) !! r = None -> getStatus r m = Some (CloseStatus, m).
Proof. intros H. unfold getStatus. run_monad. rewrite H. reflexivity. Qed.

Lemma getStatus_present r m a rpc :
  R (breaker m) !! r = Some (Addr a) -> cells m !! a = Some rpc ->
  getStatus r m = Some (Status rpc, m).
Proof.
  intros H Ha. unfold getStatus. run_monad. rewrite H. simpl.
  rewrite Ha. reflexivity.
Qed.

Lemma setOpenStatus_result now p m :
  setOpenStatus now p m = Some (tt, mkMem (cells m ++ [openRPC now]) (breaker m)).
Proof. reflexivity. Qed.

Lemma setFail_absent now r m :
  R (breaker m) !! r = None ->
  setFail now r m =
  Some (tt, mkMem (cells m ++
                     (if FailThreshold (Conf (breaker m)) =? 1
                      then [zeroRPC; openRPC now]
                      else [withFail zeroRPC 1]))
                  (mkBreaker (Conf (breaker m))
                     (<[r := Addr (length (cells m))]> (R (breaker m))))).
Proof.
  intros H. destruct m as [cs [c Rm]]; simpl in *.
  unfold setFail. run_monad. rewrite H. simpl.
  destruct (FailThreshold c =? 1); simpl.
  - rewrite <- app_assoc. reflexivity.
  - rewrite lookup_insert_eq. simpl.
    rewrite list_lookup_middle by reflexivity. simpl.
    rewrite list_lookup_middle by reflexivity.
    rewrite insert_app_r_alt by lia. rewrite Nat.sub_diag. reflexivity.
Qed.

Lemma setFail_closed now r m a rpc :
  R (breaker m) !! r = Some (Addr a) -> cells m !! a = Some rpc ->
  Status rpc = CloseStatus ->
  setFail now r m =
  Some (tt, mkMem (<[a := withFail rpc (incr (FailCount rpc))]> (cells m) ++
                     (if FailThreshold (Conf (breaker m)) <=? incr (FailCount rpc)
                      then [openRPC now] else []))
                  (breaker m)).
Proof.
  intros H Ha Hs. destruct m as [cs [c Rm]]; simpl in *.
  unfold setFail. run_monad. rewrite H. simpl. rewrite Ha.
  unfold isHalfOpen, isClose, withFail. rewrite Hs. simpl. rewrite Ha. simpl.
  rewrite list_lookup_insert_eq by (eapply lookup_lt_Some; eassumption).
  simpl. destruct (FailThreshold c <=? incr (FailCount rpc)); simpl.
  - reflexivity.
  - rewrite app_nil_r. reflexivity.
Qed.

Lemma setFail_halfopen now r m a rpc :
  R (breaker m) !! r = Some (Addr a) -> cells m !! a = Some rpc ->
  Status rpc = HalfOpenStatus ->
  setFail now r m = Some (tt, mkMem (cells m ++ [openRPC now]) (breaker m)).
Proof.
  intros H Ha Hs. destruct m as [cs [c Rm]]; simpl in *.
  unfold setFail. run_monad. rewrite H. simpl. rewrite Ha.
  unfold isHalfOpen. rewrite Hs. reflexivity.
Qed.

Lemma setFail_open now r m a rpc :
  R (breaker m) !! r = Some (Addr a) -> cells m !! a = Some rpc ->
  Status rpc = OpenStatus ->
  setFail now r m = Some (tt, m).
Proof.
  intros H Ha Hs. unfold setFail. run_monad. rewrite H. simpl. rewrite Ha.
  unfold isHalfOpen, isClose. rewrite Hs. reflexivity.
Qed.

Lemma setSucc_absent r m :
  R (breaker m) !! r = None -> setSucc r m = Some (tt, m).
Proof. intros H. unfold setSucc. run_monad. rewrite H. reflexivity. Qed.

Lemma setSucc_not_halfopen r m a rpc :
  R (breaker m) !! r = Some (Addr a) -> cells m !! a = Some rpc ->
  Status rpc <> HalfOpenStatus ->
  setSucc r m = Some (tt, m).
Proof.
  intros H Ha Hs. unfold setSucc. run_monad. rewrite H. simpl. rewrite Ha.
  unfold isHalfOpen. rewrite bool_decide_eq_false_2 by assumption. reflexivity.
Qed.

Lemma setSucc_halfopen r m a rpc :
  R (breaker m) !! r = Some (Addr a) -> cells m !! a = Some rpc ->
  Status rpc = HalfOpenStatus ->
  setSucc r m =
  Some (tt,
        if SuccThreshold (Conf (breaker m)) <=? incr (SuccCount rpc)
        then mkMem (<[a := withSucc rpc (incr (SuccCount rpc))]> (cells m) ++ [zeroRPC])
                   (mkBreaker (Conf (breaker m))
                      (<[r := Addr (length (cells m))]> (R (breaker m))))
        else mkMem (<[a := withSucc rpc (incr (SuccCount rpc))]> (cells m))
                   (breaker m)).
Proof.
  intros H Ha Hs. destruct m as [cs [c Rm]]; simpl in *.
  unfold setSucc. run_monad. rewrite H. simpl. rewrite Ha.
  unfold isHalfOpen, withSucc. rewrite Hs. simpl. rewrite Ha. simpl.
  rewrite list_lookup_insert_eq by (eapply lookup_lt_Some; eassumption).
  simpl. destruct (SuccThreshold c <=? incr (SuccCount rpc)); simpl.
  - rewrite length_insert. reflexivity.
  - reflexivity.
Qed.

Lemma tickEntry_result nowTime k a m rpc :
  cells m !! a = Some rpc ->
  tickEntry nowTime (k, Addr a) m =
  Some (tt,
        if isOpen rpc &&
           (nowTime <? add64 (OpenTime rpc) (OpenTimeout (Conf (breaker m))))
        then mkMem (cells m ++ [halfOpenRPC])
                   (mkBreaker (Conf (breaker m))
                      (<[k := Addr (length (cells m))]> (R (breaker m))))
        else m).
Proof.
  intros Ha. destruct m as [cs [c Rm]]; simpl in *.
  unfold tickEntry. run_monad. rewrite Ha. simpl.
  destruct (isOpen rpc && (nowTime <? add64 (OpenTime rpc) (OpenTimeout c)));
    reflexivity.
Qed.

(** ** The registry seen through its pointers *)

Lemma valid_InitBreaker c : valid (InitBreaker c).
Proof.
  split; simpl.
  - intros r p H. rewrite lookup_empty in H. discriminate.
  - intros r1 r2 a H. rewrite lookup_empty in H. discriminate.
Qed.

Lemma valid_tracking c r rpc : valid (tracking c r rpc).
Proof.
  split; simpl.
  - intros r' p H. apply lookup_singleton_Some in H as [_ <-].
    exists 0%nat. split; [reflexivity | lia].
  - intros r1 r2 a H1 H2.
    apply lookup_singleton_Some in H1 as [<- _].
    apply lookup_singleton_Some in H2 as [<- _]. reflexivity.
Qed.

Lemma record_Some m r rpc :
  record m r = Some rpc <->
  exists a, R (breaker m) !! r = Some (Addr a) /\ cells m !! a = Some rpc.
Proof.
  unfold record. split.
  - destruct (R (breaker m) !! r) as [[|a]|]; try discriminate.
    intros H. exists a. split; [reflexivity | assumption].
  - intros (a & -> & H). assumption.
Qed.

Lemma record_absent m r : R (breaker m) !! r = None -> record m r = None.
Proof. unfold record. intros ->. reflexivity. Qed.

Lemma valid_record m r p :
  valid m -> R (breaker m) !! r = Some p ->
  exists a rpc, p = Addr a /\ cells m !! a = Some rpc /\ record m r = Some rpc.
Proof.
  intros [Hv _] H. destruct (Hv r p H) as (a & -> & Hlt).
  destruct (lookup_lt_is_Some_2 (cells m) a Hlt) as [rpc Hrpc].
  exists a, rpc. repeat split; [assumption|].
  apply record_Some. exists a. split; assumption.
Qed.

Lemma valid_extend m l : valid m -> valid (extend m l).
Proof.
  intros [Hv Hi]. split; simpl.
  - intros r p H. destruct (Hv r p H) as (a & -> & Hlt).
    exists a. split; [reflexivity|]. rewrite length_app. lia.
  - exact Hi.
Qed.

Lemma record_extend m l r : valid m -> record (extend m l) r = record m r.
Proof.
  intros [Hv _]. unfold record, extend. simpl.
  destruct (R (breaker m) !! r) as [[|a]|] eqn:E; try reflexivity.
  destruct (Hv r _ E) as (a' & [= <-] & Hlt).
  apply lookup_app_l. assumption.
Qed.

Lemma valid_poke m a v : valid m -> valid (poke m a v).
Proof.
  intros [Hv Hi]. split; simpl.
  - intros r p H. destruct (Hv r p H) as (a' & -> & Hlt).
    exists a'. split; [reflexivity|]. rewrite length_insert. assumption.
  - exact Hi.
Qed.

Lemma record_poke m r a v r' :
  valid m -> R (breaker m) !! r = Some (Addr a) ->
  record (poke m a v) r' = if decide (r' = r) then Some v else record m r'.
Proof.
  intros [Hv Hi] H. unfold record, poke. simpl.
  destruct (decide (r' = r)) as [->|Hne].
  - rewrite H. destruct (Hv r _ H) as (a' & [= <-] & Hlt).
    apply list_lookup_insert_eq. assumption.
  - destruct (R (breaker m) !! r') as [[|a']|] eqn:E; try reflexivity.
    apply list_lookup_insert_ne. intros ->. apply Hne. eapply Hi; eassumption.
Qed.

Lemma valid_rebind m r v l : valid m -> valid (rebind m r v l).
Proof.
  intros [Hv Hi]. split; simpl.
  - intros r' p. rewrite lookup_insert. case_decide as Hr.
    + intros [= <-]. exists (length (cells m)). split; [reflexivity|].
      rewrite length_app. simpl. lia.
    + intros H. destruct (Hv r' p H) as (a & -> & Hlt).
      exists a. split; [reflexivity|]. rewrite length_app. lia.
  - intros r1 r2 a. rewrite !lookup_insert.
    case_decide as H1; case_decide as H2.
    + congruence.
    + intros [= <-] H. destruct (Hv r2 _ H) as (a' & [= <-] & Hlt). lia.
    + intros H [= <-]. destruct (Hv r1 _ H) as (a' & [= <-] & Hlt). lia.
    + apply Hi.
Qed.

Lemma record_rebind m r v l r' :
  valid m ->
  record (rebind m r v l) r' = if decide (r' = r) then Some v else record m r'.
Proof.
  intros [Hv _]. unfold record, rebind. simpl.
  rewrite lookup_insert. destruct (decide (r' = r)) as [->|Hne].
  - rewrite decide_True by reflexivity.
    apply list_lookup_middle. reflexivity.
  - rewrite decide_False by congruence.
    destruct (R (breaker m) !! r') as [[|a]|] eqn:E; try reflexivity.
    destruct (Hv r' _ E) as (a' & [= <-] & Hlt).
    apply lookup_app_l. assumption.
Qed.

Lemma rebind_poke m a v r w :
  mkMem (<[a := v]> (cells m) ++ [w])
        (mkBreaker (Conf (breaker m))
           (<[r := Addr (length (cells m))]> (R (breaker m)))) =
  rebind (poke m a v) r w [].
Proof. unfold rebind, poke. simpl. rewrite length_insert. reflexivity. Qed.

(** ** What each method does to the registry

    On a valid memory every method returns, keeps the memory valid, and
    changes the record of one key only. *)

Lemma setFail_spec now r m :
  valid m ->
  exists m', setFail now r m = Some (tt, m') /\ valid m' /\
    Conf (breaker m') = Conf (breaker m) /\
    forall r', record m' r' =
               if decide (r' = r)
               then Some (afterFail (Conf (breaker m)) (record m r))
               else record m r'.
Proof.
  intros Hv. destruct (R (breaker m) !! r) as [p|] eqn:E.
  - destruct (valid_record m r p Hv E) as (a & rpc & -> & Ha & Hrec).
    rewrite Hrec. unfold afterFail, isClose.
    destruct (Status rpc) eqn:Hs; simpl.
    + rewrite (setFail_closed now r m a rpc E Ha Hs).
      set (v := withFail rpc (incr (FailCount rpc))).
      set (l := if _ <=? _ then _ else _).
      exists (extend (poke m a v) l). split; [reflexivity|].
      split; [apply valid_extend, valid_poke, Hv|].
      split; [reflexivity|].
      intros r'. rewrite record_extend by (apply valid_poke, Hv).
      apply record_poke; assumption.
    + rewrite (setFail_halfopen now r m a rpc E Ha Hs).
      exists (extend m [openRPC now]). split; [reflexivity|].
      split; [apply valid_extend, Hv|]. split; [reflexivity|].
      intros r'. rewrite record_extend by assumption.
      destruct (decide (r' = r)) as [->|]; [assumption | reflexivity].
    + rewrite (setFail_open now r m a rpc E Ha Hs).
      exists m. split; [reflexivity|]. split; [assumption|].
      split; [reflexivity|].
      intros r'. destruct (decide (r' = r)) as [->|]; [assumption | reflexivity].
  - rewrite (setFail_absent now r m E), (record_absent m r E). simpl.
    destruct (FailThreshold (Conf (breaker m)) =? 1).
    + exists (rebind m r zeroRPC [openRPC now]). split; [reflexivity|].
      split; [apply valid_rebind, Hv|]. split; [reflexivity|].
      intros r'. apply record_rebind, Hv.
    + exists (rebind m r (withFail zeroRPC 1) []). split; [reflexivity|].
      split; [apply valid_rebind, Hv|]. split; [reflexivity|].
      intros r'. apply record_rebind, Hv.
Qed.

Lemma setSucc_spec r m :
  valid m ->
  exists m', setSucc r m = Some (tt, m') /\ valid m' /\
    Conf (breaker m') = Conf (breaker m) /\
    forall r', record m' r' =
               if decide (r' = r)
               then afterSucc (Conf (breaker m)) <$> record m r'
               else record m r'.
Proof.
  intros Hv. destruct (R (breaker m) !! r) as [p|] eqn:E.
  - destruct (valid_record m r p Hv E) as (a & rpc & -> & Ha & Hrec).
    destruct (decide (Status rpc = HalfOpenStatus)) as [Hs|Hs].
    + rewrite (setSucc_halfopen r m a rpc E Ha Hs).
      assert (Hafter : afterSucc (Conf (breaker m)) rpc =
                       if SuccThreshold (Conf (breaker m)) <=? incr (SuccCount rpc)
                       then zeroRPC else withSucc rpc (incr (SuccCount rpc))).
      { unfold afterSucc, isHalfOpen. rewrite Hs. reflexivity. }
      destruct (SuccThreshold (Conf (breaker m)) <=? incr (SuccCount rpc)).
      * rewrite rebind_poke. eexists. split; [reflexivity|].
        split; [apply valid_rebind, valid_poke, Hv|]. split; [reflexivity|].
        intros r'. rewrite record_rebind by (apply valid_poke, Hv).
        destruct (decide (r' = r)) as [->|]; [|rewrite (record_poke m r a) by assumption].
        -- rewrite Hrec. simpl. rewrite Hafter. reflexivity.
        -- rewrite decide_False by assumption. reflexivity.
      * exists (poke m a (withSucc rpc (incr (SuccCount rpc)))).
        split; [reflexivity|]. split; [apply valid_poke, Hv|].
        split; [reflexivity|].
        intros r'. rewrite (record_poke m r a) by assumption.
        destruct (decide (r' = r)) as [->|]; [|reflexivity].
        rewrite Hrec. simpl. rewrite Hafter. reflexivity.
    + rewrite (setSucc_not_halfopen r m a rpc E Ha Hs).
      exists m. split; [reflexivity|]. split; [assumption|].
      split; [reflexivity|].
      intros r'. destruct (decide (r' = r)) as [->|]; [|reflexivity].
      rewrite Hrec. simpl. unfold afterSucc, isHalfOpen.
      rewrite bool_decide_eq_false_2 by assumption. reflexivity.
  - rewrite (setSucc_absent r m E).
    exists m. split; [reflexivity|]. split; [assumption|].
    split; [reflexivity|].
    intros r'. destruct (decide (r' = r)) as [->|]; [|reflexivity].
    rewrite (record_absent m r E). reflexivity.
Qed.

Lemma getStatus_spec r m :
  valid m ->
  getStatus r m =
  Some (match record m r with Some rpc => Status rpc | None => CloseStatus end, m).
Proof.
  intros Hv. destruct (R (breaker m) !! r) as [p|] eqn:E.
  - destruct (valid_record m r p Hv E) as (a & rpc & -> & Ha & ->).
    apply (getStatus_present r m a rpc); assumption.
  - rewrite (record_absent m r E). apply getStatus_absent, E.
Qed.

Lemma tickEntry_spec nowTime k p m :
  valid m -> R (breaker m) !! k = Some p ->
  exists m', tickEntry nowTime (k, p) m = Some (tt, m') /\ valid m' /\
    Conf (breaker m') = Conf (breaker m) /\
    (forall r, record m' r =
               if decide (r = k)
               then afterTick (Conf (breaker m)) nowTime <$> record m r
               else record m r) /\
    (forall r, r <> k -> R (breaker m') !! r = R (breaker m) !! r).
Proof.
  intros Hv E.
  destruct (valid_record m k p Hv E) as (a & rpc & -> & Ha & Hrec).
  rewrite (tickEntry_result nowTime k a m rpc Ha).
  assert (Hafter : afterTick (Conf (breaker m)) nowTime rpc =
            if isOpen rpc &&
               (nowTime <? add64 (OpenTime rpc) (OpenTimeout (Conf (breaker m))))
            then halfOpenRPC else rpc) by reflexivity.
  destruct (isOpen rpc && _).
  - exists (rebind m k halfOpenRPC []). split; [reflexivity|].
    split; [apply valid_rebind, Hv|]. split; [reflexivity|]. split.
    + intros r. rewrite record_rebind by assumption.
      destruct (decide (r = k)) as [->|]; [|reflexivity].
      rewrite Hrec. simpl. rewrite Hafter. reflexivity.
    + intros r Hne. simpl. apply lookup_insert_ne. congruence.
  - exists m. split; [reflexivity|]. split; [assumption|].
    split; [reflexivity|]. split.
    + intros r. destruct (decide (r = k)) as [->|]; [|reflexivity].
      rewrite Hrec. simpl. rewrite Hafter. reflexivity.
    + reflexivity.
Qed.

(** The [range] loop over any list of distinct entries of the registry. *)
Lemma tickLoop_spec nowTime (l : list (string * Ptr)) :
  forall m,
    valid m -> NoDup l.*1 ->
    (forall k p, (k, p) ∈ l -> R (breaker m) !! k = Some p) ->
    exists m', forEach (tickEntry nowTime) l m = Some (tt, m') /\ valid m' /\
      Conf (breaker m') = Conf (breaker m) /\
      (forall r, record m' r =
                 if decide (r ∈ l.*1)
                 then afterTick (Conf (breaker m)) nowTime <$> record m r
                 else record m r) /\
      (forall r, r ∉ l.*1 -> R (breaker m') !! r = R (breaker m) !! r).
Proof.
  induction l as [|[k p] l IH]; intros m Hv Hnd Hin.
  - exists m. split; [reflexivity|]. split; [assumption|].
    split; [reflexivity|]. split; [|reflexivity].
    intros r. destruct (decide (r ∈ ([] : list (string * Ptr)).*1)) as [H|]; [|reflexivity].
    apply not_elem_of_nil in H. contradiction.
  - simpl in Hnd. apply NoDup_cons in Hnd as [Hk Hnd].
    destruct (tickEntry_spec nowTime k p m Hv) as (m1 & E1 & Hv1 & Hc1 & Hr1 & Hf1).
    { apply Hin. left. }
    destruct (IH m1 Hv1 Hnd) as (m2 & E2 & Hv2 & Hc2 & Hr2 & Hf2).
    { intros k' p' Hin'. rewrite Hf1.
      - apply Hin. right. assumption.
      - intros ->. apply Hk. apply list_elem_of_fmap. exists (k, p'). split; [reflexivity | assumption]. }
    exists m2. split.
    { simpl. rewrite (bind_Some _ _ _ _ _ E1). assumption. }
    split; [assumption|]. split; [congruence|]. split.
    + intros r. rewrite Hr2, Hc1. simpl.
      destruct (decide (r = k)) as [->|Hne].
      * rewrite decide_False by assumption.
        rewrite decide_True by left.
        rewrite Hr1, decide_True by reflexivity. reflexivity.
      * destruct (decide (r ∈ l.*1)) as [Hl|Hl].
        -- rewrite decide_True by (right; assumption).
           rewrite Hr1, decide_False by assumption. reflexivity.
        -- rewrite decide_False by (rewrite elem_of_cons; tauto).
           rewrite Hr1, decide_False by assumption. reflexivity.
    + intros r Hr. simpl in Hr. rewrite elem_of_cons in Hr.
      rewrite Hf2 by tauto. apply Hf1. tauto.
Qed.

Lemma tickPass_spec nowTime m :
  valid m ->
  exists m', tickPass nowTime m = Some (tt, m') /\ valid m' /\
    Conf (breaker m') = Conf (breaker m) /\
    forall r, record m' r = afterTick (Conf (breaker m)) nowTime <$> record m r.
Proof.
  intros Hv. unfold tickPass.
  destruct (tickLoop_spec nowTime (map_to_list (R (breaker m))) m Hv)
    as (m' & E & Hv' & Hc & Hr & _).
  { apply NoDup_fst_map_to_list. }
  { intros k p. apply elem_of_map_to_list. }
  exists m'. split; [assumption|]. split; [assumption|]. split; [assumption|].
  intros r. rewrite Hr. destruct (decide _) as [|Hn]; [reflexivity|].
  destruct (record m r) as [rpc|] eqn:Hrec; [|reflexivity].
  exfalso. apply Hn. apply record_Some in Hrec as (a & Ha & _).
  apply list_elem_of_fmap. exists (r, Addr a). split; [reflexivity|].
  apply elem_of_map_to_list. assumption.
Qed.

(** ** The record of the resource a call is about

    These need nothing of the rest of the registry. *)

Lemma setFail_fresh_record now r m :
  R (breaker m) !! r = None ->
  exists m', setFail now r m = Some (tt, m') /\
    Conf (breaker m') = Conf (breaker m) /\
    record m' r = Some (afterFail (Conf (breaker m)) None).
Proof.
  intros E. rewrite (setFail_absent now r m E). eexists.
  split; [reflexivity|]. split; [reflexivity|].
  unfold record. simpl. rewrite lookup_insert_eq.
  destruct (FailThreshold (Conf (breaker m)) =? 1);
    apply list_lookup_middle; reflexivity.
Qed.

Lemma setFail_record now r m rpc :
  record m r = Some rpc ->
  exists m', setFail now r m = Some (tt, m') /\
    Conf (breaker m') = Conf (breaker m) /\
    R (breaker m') = R (breaker m) /\
    record m' r = Some (afterFail (Conf (breaker m)) (Some rpc)).
Proof.
  intros H. apply record_Some in H as (a & Ha & Hc).
  assert (Hlt : (a < length (cells m))%nat) by (eapply lookup_lt_Some; eassumption).
  unfold afterFail, isClose. destruct (Status rpc) eqn:Hs; simpl.
  - rewrite (setFail_closed now r m a rpc Ha Hc Hs). eexists.
    split; [reflexivity|]. split; [reflexivity|]. split; [reflexivity|].
    unfold record. simpl. rewrite Ha.
    rewrite lookup_app_l by (rewrite length_insert; assumption).
    apply list_lookup_insert_eq. assumption.
  - rewrite (setFail_halfopen now r m a rpc Ha Hc Hs). eexists.
    split; [reflexivity|]. split; [reflexivity|]. split; [reflexivity|].
    unfold record. simpl. rewrite Ha.
    rewrite lookup_app_l by assumption. assumption.
  - rewrite (setFail_open now r m a rpc Ha Hc Hs). exists m.
    split; [reflexivity|]. split; [reflexivity|]. split; [reflexivity|].
    unfold record. rewrite Ha. assumption.
Qed.

Lemma setSucc_record r m rpc :
  record m r = Some rpc ->
  exists m', setSucc r m = Some (tt, m') /\
    Conf (breaker m') = Conf (breaker m) /\
    record m' r = Some (afterSucc (Conf (breaker m)) rpc).
Proof.
  intros H. apply record_Some in H as (a & Ha & Hc).
  assert (Hlt : (a < length (cells m))%nat) by (eapply lookup_lt_Some; eassumption).
  unfold afterSucc, isHalfOpen.
  destruct (decide (Status rpc = HalfOpenStatus)) as [Hs|Hs].
  - rewrite (setSucc_halfopen r m a rpc Ha Hc Hs).
    rewrite bool_decide_eq_true_2 by assumption.
    destruct (SuccThreshold (Conf (breaker m)) <=? incr (SuccCount rpc)).
    + eexists. split; [reflexivity|]. split; [reflexivity|].
      unfold record. simpl. rewrite lookup_insert_eq.
      apply list_lookup_middle. rewrite length_insert. reflexivity.
    + eexists. split; [reflexivity|]. split; [reflexivity|].
      unfold record. simpl. rewrite Ha.
      apply list_lookup_insert_eq. assumption.
  - rewrite (setSucc_not_halfopen r m a rpc Ha Hc Hs).
    rewrite bool_decide_eq_false_2 by assumption.
    exists m. split; [reflexivity|]. split; [reflexivity|].
    unfold record. rewrite Ha. assumption.
Qed.

(** Successes reported for a record that is not Half-Open change nothing,
    however many there are. *)
Lemma successes_ignored r n :
  forall m rpc, record m r = Some rpc -> Status rpc <> HalfOpenStatus ->
    times n (setSucc r) m = Some (tt, m).
Proof.
  induction n as [|n IH]; intros m rpc H Hs; [reflexivity|].
  simpl. apply record_Some in H as H'. destruct H' as (a & Ha & Hc).
  rewrite (bind_Some _ _ _ _ _ (setSucc_not_halfopen r m a rpc Ha Hc Hs)).
  eapply IH; eassumption.
Qed.

(** Below the threshold a Half-Open record only counts. *)
Lemma successes_below_threshold r j :
  forall m rpc,
    record m r = Some rpc -> Status rpc = HalfOpenStatus ->
    0 <= SuccCount rpc ->
    SuccCount rpc + Z.of_nat j < SuccThreshold (Conf (breaker m)) ->
    SuccThreshold (Conf (breaker m)) <= int_max ->
    exists m', times j (setSucc r) m = Some (tt, m') /\
      Conf (breaker m') = Conf (breaker m) /\
      record m' r = Some (withSucc rpc (SuccCount rpc + Z.of_nat j)).
Proof.
  induction j as [|j IH]; intros m rpc H Hs H0 Hlt Hmax.
  - exists m. split; [reflexivity|]. split; [reflexivity|].
    rewrite H. destruct rpc; unfold withSucc; simpl. do 2 f_equal. lia.
  - destruct (setSucc_record r m rpc H) as (m1 & E1 & Hc1 & Hr1).
    assert (Hincr : incr (SuccCount rpc) = SuccCount rpc + 1).
    { apply incr_small. destruct int_constants as (-> & Hm & _). lia. }
    assert (Hstep : afterSucc (Conf (breaker m)) rpc =
                    withSucc rpc (SuccCount rpc + 1)).
    { unfold afterSucc, isHalfOpen. rewrite Hs, Hincr. simpl.
      destruct (Z.leb_spec (SuccThreshold (Conf (breaker m))) (SuccCount rpc + 1));
        [lia | reflexivity]. }
    rewrite Hstep in Hr1.
    destruct (IH m1 _ Hr1) as (m2 & E2 & Hc2 & Hr2); simpl;
      try rewrite Hc1; try assumption; try lia.
    exists m2. split.
    + simpl. rewrite (bind_Some _ _ _ _ _ E1). assumption.
    + split; [congruence|]. rewrite Hr2. unfold withSucc. simpl.
      do 2 f_equal. lia.
Qed.

(** Once the count can reach the threshold within [n] calls, [n] calls
    close the record. *)
Lemma successes_reach_threshold r n :
  forall m rpc,
    record m r = Some rpc -> Status rpc = HalfOpenStatus ->
    0 <= SuccCount rpc < int_max ->
    SuccThreshold (Conf (breaker m)) <= int_max ->
    SuccThreshold (Conf (breaker m)) <= SuccCount rpc + Z.of_nat n ->
    (0 < n)%nat ->
    exists m', times n (setSucc r) m = Some (tt, m') /\
      record m' r = Some zeroRPC.
Proof.
  induction n as [|n IH]; intros m rpc H Hs H0 Hmax Hreach Hn; [lia|].
  destruct (setSucc_record r m rpc H) as (m1 & E1 & Hc1 & Hr1).
  assert (Hincr : incr (SuccCount rpc) = SuccCount rpc + 1).
  { apply incr_small. destruct int_constants as (-> & Hm & _). lia. }
  unfold afterSucc, isHalfOpen in Hr1. rewrite Hs, Hincr in Hr1. simpl in Hr1.
  destruct (Z.leb_spec (SuccThreshold (Conf (breaker m))) (SuccCount rpc + 1)) as [Hle|Hgt].
  - exists m1. split; [|assumption].
    simpl. rewrite (bind_Some _ _ _ _ _ E1).
    apply (successes_ignored r n m1 zeroRPC Hr1). discriminate.
  - destruct (IH m1 _ Hr1) as (m2 & E2 & Hr2); simpl;
      try rewrite Hc1; try assumption; try lia.
    exists m2. split; [|assumption].
    simpl. rewrite (bind_Some _ _ _ _ _ E1). assumption.
Qed.

(** A Closed record only counts, whatever the threshold. *)
Lemma failures_on_closed r ts :
  forall m k s t,
    record m r = Some (mkRPC CloseStatus (wrap k) s t) ->
    exists m', failures ts r m = Some (tt, m') /\
      Conf (breaker m') = Conf (breaker m) /\
      record m' r = Some (mkRPC CloseStatus (wrap (k + Z.of_nat (length ts))) s t).
Proof.
  unfold failures. induction ts as [|now ts IH]; intros m k s t H.
  - exists m. split; [reflexivity|]. split; [reflexivity|].
    simpl. rewrite Z.add_0_r. assumption.
  - destruct (setFail_record now r m _ H) as (m1 & E1 & Hc1 & _ & Hr1).
    unfold afterFail, isClose, withFail in Hr1. simpl in Hr1.
    rewrite incr_wrap in Hr1.
    destruct (IH m1 _ _ _ Hr1) as (m2 & E2 & Hc2 & Hr2).
    exists m2. split.
    + simpl. rewrite (bind_Some _ _ _ _ _ E1). assumption.
    + split; [congruence|]. rewrite Hr2. do 2 f_equal.
      rewrite length_cons. f_equal. lia.
Qed.

Lemma failures_on_fresh r now ts m :
  R (breaker m) !! r = None ->
  exists m', failures (now :: ts) r m = Some (tt, m') /\
    record m' r =
    Some (mkRPC CloseStatus
            (wrap ((if FailThreshold (Conf (breaker m)) =? 1 then 0 else 1)
                   + Z.of_nat (length ts))) 0 0).
Proof.
  intros E.
  destruct (setFail_fresh_record now r m E) as (m1 & E1 & Hc1 & Hr1).
  unfold afterFail in Hr1.
  assert (Hr1' : record m1 r =
                 Some (mkRPC CloseStatus
                         (wrap (if FailThreshold (Conf (breaker m)) =? 1
                                then 0 else 1)) 0 0)).
  { rewrite Hr1. destruct (FailThreshold (Conf (breaker m)) =? 1); reflexivity. }
  destruct (failures_on_closed r ts m1 _ _ _ Hr1') as (m2 & E2 & _ & Hr2).
  exists m2. split; [|assumption].
  unfold failures. simpl. rewrite (bind_Some _ _ _ _ _ E1). assumption.
Qed.

(** ** Histories from [InitBreaker] *)

Lemma idle_S n rpc : idle n rpc -> idle (S n) rpc.
Proof.
  intros (Hs & Ho & Hc & Hf). repeat split; try assumption; lia.
Qed.

Lemma idle_afterFail c n o :
  (forall rpc, o = Some rpc -> idle n rpc) -> idle (S n) (afterFail c o).
Proof.
  intros H. destruct o as [rpc|]; simpl.
  - destruct (H rpc eq_refl) as (Hs & Ho & Hc & Hf).
    unfold isClose, withFail, idle. rewrite Hs. simpl.
    split; [reflexivity|]. split; [assumption|]. split; [assumption|].
    intros Hn. destruct int_constants as (Hmin & Hmax & _).
    rewrite incr_small; lia.
  - destruct int_constants as (_ & Hmax & _). unfold idle.
    destruct (FailThreshold c =? 1); simpl; repeat split; lia.
Qed.

Lemma idle_afterSucc c n rpc : idle n rpc -> afterSucc c rpc = rpc.
Proof.
  intros (Hs & _). unfold afterSucc, isHalfOpen. rewrite Hs. reflexivity.
Qed.

Lemma idle_afterTick c nowTime n rpc : idle n rpc -> afterTick c nowTime rpc = rpc.
Proof.
  intros (Hs & _). unfold afterTick, isOpen. rewrite Hs. reflexivity.
Qed.

Lemma all_idle_InitBreaker c : all_idle 0 (InitBreaker c).
Proof.
  split; [apply valid_InitBreaker|].
  intros r rpc H. rewrite record_absent in H; [discriminate|].
  apply lookup_empty.
Qed.

Lemma exec_all_idle nowTime o n m :
  all_idle n m ->
  exists m', exec nowTime o m = Some (tt, m') /\
    Conf (breaker m') = Conf (breaker m) /\ all_idle (S n) m'.
Proof.
  intros [Hv Hi]. destruct o as [now r|r|r|]; simpl.
  - destruct (setFail_spec now r m Hv) as (m' & E & Hv' & Hc & Hr).
    exists m'. split; [assumption|]. split; [assumption|].
    split; [assumption|]. intros r' rpc. rewrite Hr.
    destruct (decide (r' = r)) as [->|_].
    + intros [= <-]. apply idle_afterFail. intros rpc0. apply Hi.
    + intros H. apply idle_S. eapply Hi. eassumption.
  - destruct (setSucc_spec r m Hv) as (m' & E & Hv' & Hc & Hr).
    exists m'. split; [assumption|]. split; [assumption|].
    split; [assumption|]. intros r' rpc. rewrite Hr.
    destruct (decide (r' = r)) as [->|_].
    + destruct (record m r) as [rpc0|] eqn:E0; [|discriminate].
      simpl. rewrite (idle_afterSucc _ n) by (eapply Hi; eassumption).
      intros [= <-]. apply idle_S. eapply Hi. eassumption.
    + intros H. apply idle_S. eapply Hi. eassumption.
  - unfold bind. rewrite (getStatus_spec r m Hv).
    exists m. split; [reflexivity|]. split; [reflexivity|].
    split; [assumption|]. intros r' rpc H. apply idle_S. eapply Hi. eassumption.
  - destruct (tickPass_spec nowTime m Hv) as (m' & E & Hv' & Hc & Hr).
    exists m'. split; [assumption|]. split; [assumption|].
    split; [assumption|]. intros r' rpc. rewrite Hr.
    destruct (record m r') as [rpc0|] eqn:E0; [|discriminate].
    simpl. rewrite (idle_afterTick _ _ n) by (eapply Hi; eassumption).
    intros [= <-]. apply idle_S. eapply Hi. eassumption.
Qed.

Lemma run_all_idle nowTime ops :
  forall n m, all_idle n m ->
    exists m', run nowTime ops m = Some (tt, m') /\
      Conf (breaker m') = Conf (breaker m) /\
      all_idle (length ops + n) m'.
Proof.
  unfold run. induction ops as [|o ops IH]; intros n m Hi.
  - exists m. split; [reflexivity|]. split; [reflexivity|]. exact Hi.
  - destruct (exec_all_idle nowTime o n m Hi) as (m1 & E1 & Hc1 & Hi1).
    destruct (IH (S n) m1 Hi1) as (m2 & E2 & Hc2 & Hi2).
    exists m2. split.
    + simpl. rewrite (bind_Some _ _ _ _ _ E1). assumption.
    + split; [congruence|]. simpl.
      replace (S (length ops + n)) with (length ops + S n)%nat by lia.
      assumption.
Qed.

(** Whenever a call or a ticker pass changes the status of a record, the
    record it leaves has both counters at 0. *)
Lemma exec_status_change_resets nowTime o m :
  valid m ->
  exists m', exec nowTime o m = Some (tt, m') /\
    forall r rpc rpc',
      record m r = Some rpc -> record m' r = Some rpc' ->
      Status rpc' <> Status rpc ->
      FailCount rpc' = 0 /\ SuccCount rpc' = 0.
Proof.
  intros Hv. destruct o as [now r|r|r|]; simpl.
  - destruct (setFail_spec now r m Hv) as (m' & E & _ & _ & Hr).
    exists m'. split; [assumption|]. intros r' rpc rpc' H. rewrite Hr.
    destruct (decide (r' = r)) as [->|_]; [|rewrite H; congruence].
    rewrite H. unfold afterFail. intros [= <-].
    destruct (isClose rpc); simpl; congruence.
  - destruct (setSucc_spec r m Hv) as (m' & E & _ & _ & Hr).
    exists m'. split; [assumption|]. intros r' rpc rpc' H. rewrite Hr.
    destruct (decide (r' = r)) as [->|_]; [|rewrite H; congruence].
    rewrite H. simpl. unfold afterSucc. intros [= <-].
    destruct (isHalfOpen rpc); [|congruence].
    destruct (_ <=? _); simpl; [auto | congruence].
  - unfold bind. rewrite (getStatus_spec r m Hv).
    exists m. split; [reflexivity|]. intros r' rpc rpc' H. rewrite H. congruence.
  - destruct (tickPass_spec nowTime m Hv) as (m' & E & _ & _ & Hr).
    exists m'. split; [assumption|]. intros r' rpc rpc' H. rewrite Hr, H.
    simpl. unfold afterTick. intros [= <-].
    destruct (_ && _); simpl; [auto | congruence].
Qed.

(** From [InitBreaker], while the history is shorter than [2^63] steps no
    counter is negative. *)
Lemma short_history_counters_nonnegative c nowTime ops :
  Z.of_nat (length ops) <= int_max ->
  exists m, run nowTime ops (InitBreaker c) = Some (tt, m) /\
    forall r rpc, record m r = Some rpc ->
                  0 <= FailCount rpc /\ 0 <= SuccCount rpc.
Proof.
  intros Hlen.
  destruct (run_all_idle nowTime ops 0 (InitBreaker c) (all_idle_InitBreaker c))
    as (m & E & _ & _ & Hi).
  exists m. split; [assumption|]. intros r rpc H.
  destruct (Hi r rpc H) as (_ & _ & Hs & Hf).
  rewrite Nat.add_0_r in Hf. lia.
Qed.

(** ** The claims *)

(** C1, on the code: with [FailThreshold = N > 1] and a fresh resource,
    [N-1] consecutive failures leave the record Closed with
    [FailCount = N-1]; the [N]th failure leaves it Closed as well, with
    [FailCount = N] and [OpenTime = 0], and [getStatus] still answers
    Closed.  The record does not become Open. *)
Theorem C1_nth_failure_stays_closed
    (m : Mem) (r : string) (N : Z) (ts : list Z) (tN : Z) :
  R (breaker m) !! r = None ->
  FailThreshold (Conf (breaker m)) = N -> 1 < N <= int_max ->
  Z.of_nat (length ts) = N - 1 ->
  (exists m1, failures ts r m = Some (tt, m1) /\
     record m1 r = Some (mkRPC CloseStatus (N - 1) 0 0)) /\
  (exists m2, failures (ts ++ [tN]) r m = Some (tt, m2) /\
     record m2 r = Some (mkRPC CloseStatus N 0 0) /\
     getStatus r m2 = Some (CloseStatus, m2)).
Proof.
  intros E HN Hrange Hlen.
  destruct int_constants as (Hmin & Hmax & _).
  destruct ts as [|t ts]; [simpl in Hlen; lia|].
  assert (Hne : (FailThreshold (Conf (breaker m)) =? 1) = false)
    by (apply Z.eqb_neq; lia).
  split.
  - destruct (failures_on_fresh r t ts m E) as (m1 & E1 & Hr1).
    exists m1. split; [assumption|]. rewrite Hr1, Hne. do 2 f_equal.
    rewrite length_cons in Hlen.
    rewrite wrap_small; unfold in_int; lia.
  - change ((t :: ts) ++ [tN]) with (t :: (ts ++ [tN])).
    destruct (failures_on_fresh r t (ts ++ [tN]) m E) as (m2 & E2 & Hr2).
    assert (Hrec : record m2 r = Some (mkRPC CloseStatus N 0 0)).
    { rewrite Hr2, Hne. do 2 f_equal.
      rewrite length_cons in Hlen. rewrite length_app. simpl.
      rewrite wrap_small; unfold in_int; lia. }
    exists m2. split; [assumption|]. split; [assumption|].
    apply record_Some in Hrec as (a & Ha & Hc).
    apply (getStatus_present r m2 a _ Ha Hc).
Qed.

Lemma C1_nth_failure_witness :
  (exists m1, failures [100; 101] "svc-a" (InitBreaker scenario) = Some (tt, m1) /\
     record m1 "svc-a" = Some (mkRPC CloseStatus 2 0 0)) /\
  (exists m2, failures [100; 101; 102] "svc-a" (InitBreaker scenario) = Some (tt, m2) /\
     record m2 "svc-a" = Some (mkRPC CloseStatus 3 0 0) /\
     getStatus "svc-a" m2 = Some (CloseStatus, m2)).
Proof.
  apply (C1_nth_failure_stays_closed (InitBreaker scenario) "svc-a" 3 [100; 101] 102).
  - reflexivity.
  - reflexivity.
  - assert (Hmax : int_max = 9223372036854775807) by reflexivity.
    rewrite Hmax. lia.
  - reflexivity.
Defined.

(** C2, on the code: a ticker pass returns, leaves every record that is not
    Open as it was, and decides about an Open record by comparing
    [OpenTime + OpenTimeout] with [nowTime], the clock reading taken once
    when the goroutine started: the record is replaced by a fresh Half-Open
    record when [OpenTime + OpenTimeout > nowTime] and left Open otherwise.
    The time of the pass plays no part, and the comparison asks whether the
    window was still open at the start, not whether it has elapsed. *)
Theorem C2_ticker_decides_by_start_time
    (m : Mem) (nowTime : Z) (r : string) (rpc : RPC) :
  valid m -> record m r = Some rpc ->
  in_int (OpenTime rpc + OpenTimeout (Conf (breaker m))) ->
  exists m', tickPass nowTime m = Some (tt, m') /\
    (Status rpc <> OpenStatus -> record m' r = Some rpc) /\
    (Status rpc = OpenStatus ->
     nowTime < OpenTime rpc + OpenTimeout (Conf (breaker m)) ->
     record m' r = Some (mkRPC HalfOpenStatus 0 0 0)) /\
    (Status rpc = OpenStatus ->
     OpenTime rpc + OpenTimeout (Conf (breaker m)) <= nowTime ->
     record m' r = Some rpc).
Proof.
  intros Hv H Hin.
  destruct (tickPass_spec nowTime m Hv) as (m' & E & _ & _ & Hr).
  exists m'. split; [assumption|].
  rewrite Hr, H. simpl. unfold afterTick, isOpen, add64.
  rewrite (wrap_small _ Hin).
  split; [|split].
  - intros Hs. rewrite bool_decide_eq_false_2 by assumption. reflexivity.
  - intros Hs Hlt. rewrite bool_decide_eq_true_2 by assumption. simpl.
    destruct (Z.ltb_spec nowTime (OpenTime rpc + OpenTimeout (Conf (breaker m))));
      [reflexivity | lia].
  - intros Hs Hle. rewrite bool_decide_eq_true_2 by assumption. simpl.
    destruct (Z.ltb_spec nowTime (OpenTime rpc + OpenTimeout (Conf (breaker m))));
      [lia | reflexivity].
Qed.

(** Two passes of a goroutine started at time 100.  With [OpenTimeout = 10],
    a record opened at 103 is Half-Open after the first pass, at 105, two
    seconds into its window.  With [OpenTimeout = 0], a record opened at
    100 is still Open after any pass, however long ago it expired. *)
Lemma C2_ticker_witness :
  (exists m', tickPass 100 (tracking (mkConfig 3 2 10) "svc-a" (openRPC 103)) =
              Some (tt, m') /\
     record m' "svc-a" = Some (mkRPC HalfOpenStatus 0 0 0)) /\
  (exists m', tickPass 100 (tracking (mkConfig 3 2 0) "svc-a" (openRPC 100)) =
              Some (tt, m') /\
     record m' "svc-a" = Some (openRPC 100)) /\
  (exists m', tickPass 100 (tracking scenario "svc-a" (mkRPC CloseStatus 2 0 0)) =
              Some (tt, m') /\
     record m' "svc-a" = Some (mkRPC CloseStatus 2 0 0)).
Proof.
  assert (Hmin : int_min = -9223372036854775808) by reflexivity.
  assert (Hmax : int_max = 9223372036854775807) by reflexivity.
  split; [|split].
  - destruct (C2_ticker_decides_by_start_time
                (tracking (mkConfig 3 2 10) "svc-a" (openRPC 103)) 100
                "svc-a" (openRPC 103))
      as (m' & E & _ & Hdemote & _).
    + apply valid_tracking.
    + reflexivity.
    + unfold in_int. rewrite Hmin, Hmax. simpl. lia.
    + exists m'. split; [exact E|]. apply Hdemote; [reflexivity | simpl; lia].
  - destruct (C2_ticker_decides_by_start_time
                (tracking (mkConfig 3 2 0) "svc-a" (openRPC 100)) 100
                "svc-a" (openRPC 100))
      as (m' & E & _ & _ & Hstay).
    + apply valid_tracking.
    + reflexivity.
    + unfold in_int. rewrite Hmin, Hmax. simpl. lia.
    + exists m'. split; [exact E|]. apply Hstay; [reflexivity | simpl; lia].
  - destruct (C2_ticker_decides_by_start_time
                (tracking scenario "svc-a" (mkRPC CloseStatus 2 0 0)) 100
                "svc-a" (mkRPC CloseStatus 2 0 0))
      as (m' & E & Hother & _).
    + apply valid_tracking.
    + reflexivity.
    + unfold in_int. rewrite Hmin, Hmax. simpl. lia.
    + exists m'. split; [exact E|]. apply Hother. discriminate.
Defined.

(** C3, on the code: a failure reported for a Half-Open record returns
    with the registry unchanged and the record as it was, still Half-Open
    with the same counters and [OpenTime].  The record does not become
    Open. *)
Theorem C3_failure_leaves_half_open
    (m : Mem) (r : string) (rpc : RPC) (now : Z) :
  record m r = Some rpc -> Status rpc = HalfOpenStatus ->
  exists m', setFail now r m = Some (tt, m') /\
    R (breaker m') = R (breaker m) /\
    record m' r = Some rpc /\
    getStatus r m' = Some (HalfOpenStatus, m').
Proof.
  intros H Hs.
  destruct (setFail_record now r m rpc H) as (m' & E & _ & HR & Hr).
  unfold afterFail, isClose in Hr. rewrite Hs in Hr. simpl in Hr.
  exists m'. split; [assumption|]. split; [assumption|]. split; [assumption|].
  apply record_Some in Hr as (a & Ha & Hc). rewrite <- Hs.
  apply (getStatus_present r m' a rpc Ha Hc).
Qed.

Lemma C3_failure_witness :
  exists m', setFail 200 "svc-a"
               (tracking scenario "svc-a" (mkRPC HalfOpenStatus 0 1 0)) =
             Some (tt, m') /\
    R (breaker m') = {[ "svc-a" := Addr 0 ]} /\
    record m' "svc-a" = Some (mkRPC HalfOpenStatus 0 1 0) /\
    getStatus "svc-a" m' = Some (HalfOpenStatus, m').
Proof.
  apply (C3_failure_leaves_half_open
           (tracking scenario "svc-a" (mkRPC HalfOpenStatus 0 1 0))
           "svc-a" (mkRPC HalfOpenStatus 0 1 0) 200); reflexivity.
Defined.

(** C4, on the code: with [FailThreshold = 1], the first failure reported
    for a fresh resource stores a Closed record with both counters 0 and
    [OpenTime = 0], and [getStatus] answers Closed.  The record does not
    become Open. *)
Theorem C4_threshold_one_stays_closed (m : Mem) (r : string) (now : Z) :
  R (breaker m) !! r = None -> FailThreshold (Conf (breaker m)) = 1 ->
  exists m', setFail now r m = Some (tt, m') /\
    record m' r = Some (mkRPC CloseStatus 0 0 0) /\
    getStatus r m' = Some (CloseStatus, m').
Proof.
  intros E H1.
  destruct (setFail_fresh_record now r m E) as (m' & E' & _ & Hr).
  unfold afterFail in Hr. rewrite H1 in Hr. simpl in Hr.
  exists m'. split; [assumption|]. split; [assumption|].
  apply record_Some in Hr as (a & Ha & Hc).
  apply (getStatus_present r m' a zeroRPC Ha Hc).
Qed.

Lemma C4_threshold_one_witness :
  exists m', setFail 100 "svc-a" (InitBreaker (mkConfig 1 2 10)) = Some (tt, m') /\
    record m' "svc-a" = Some (mkRPC CloseStatus 0 0 0) /\
    getStatus "svc-a" m' = Some (CloseStatus, m').
Proof.
  apply (C4_threshold_one_stays_closed (InitBreaker (mkConfig 1 2 10)) "svc-a" 100);
    reflexivity.
Defined.

(** C5, as stated, fails: a Half-Open record that has already counted one
    success, under [SuccThreshold = 2], is closed by a single further
    success, which is fewer than the threshold. *)
Lemma C5_counterexample :
  ~ (forall (m : Mem) (r : string) (rpc : RPC) (K : Z),
        record m r = Some rpc -> Status rpc = HalfOpenStatus ->
        SuccThreshold (Conf (breaker m)) = K -> 1 <= K ->
        (exists m', times (Z.to_nat K) (setSucc r) m = Some (tt, m') /\
           exists rpc', record m' r = Some rpc' /\ Status rpc' = CloseStatus /\
                        FailCount rpc' = 0 /\ SuccCount rpc' = 0) /\
        (forall j : nat, (j < Z.to_nat K)%nat ->
           exists m', times j (setSucc r) m = Some (tt, m') /\
             exists rpc', record m' r = Some rpc' /\
                          Status rpc' = HalfOpenStatus)).
Proof.
  intros H.
  destruct (H (tracking scenario "svc-a" (mkRPC HalfOpenStatus 0 1 0))
              "svc-a" (mkRPC HalfOpenStatus 0 1 0) 2)
    as [_ Hfew]; try reflexivity; try lia.
  destruct (Hfew 1%nat) as (m' & E & rpc' & Hrec & Hs); [simpl; lia|].
  vm_compute in E. injection E as <-.
  vm_compute in Hrec. injection Hrec as <-.
  discriminate.
Qed.

(** C5, amended: for a Half-Open record whose [SuccCount] is [s], with
    [0 <= s < int_max], and a threshold [K] with [1 <= K <= int_max],
    [K] consecutive successes leave the record Closed with both counters
    0, and [j] consecutive successes with [s + j < K] leave it Half-Open
    with [SuccCount = s + j] and nothing else changed.  The successes
    counted before the calls count towards the threshold. *)
Theorem C5_successes_close_half_open
    (m : Mem) (r : string) (rpc : RPC) (K s : Z) :
  record m r = Some rpc -> Status rpc = HalfOpenStatus ->
  SuccCount rpc = s -> 0 <= s < int_max ->
  SuccThreshold (Conf (breaker m)) = K -> 1 <= K <= int_max ->
  (exists m', times (Z.to_nat K) (setSucc r) m = Some (tt, m') /\
     record m' r = Some (mkRPC CloseStatus 0 0 0)) /\
  (forall j : nat, s + Z.of_nat j < K ->
     exists m', times j (setSucc r) m = Some (tt, m') /\
       record m' r = Some (mkRPC HalfOpenStatus (FailCount rpc)
                                 (s + Z.of_nat j) (OpenTime rpc))).
Proof.
  intros H Hs <- H0 HKeq HK. split.
  - apply (successes_reach_threshold r (Z.to_nat K) m rpc);
      try rewrite HKeq; try assumption; lia.
  - intros j Hj.
    destruct (successes_below_threshold r j m rpc) as (m' & E & _ & Hr);
      try rewrite HKeq; try assumption; try lia.
    exists m'. split; [assumption|]. rewrite Hr. unfold withSucc.
    rewrite Hs. reflexivity.
Qed.

Lemma C5_successes_witness :
  (exists m', times 2 (setSucc "svc-a")
                (tracking scenario "svc-a" (mkRPC HalfOpenStatus 0 0 0)) =
              Some (tt, m') /\
     record m' "svc-a" = Some (mkRPC CloseStatus 0 0 0)) /\
  (exists m', times 1 (setSucc "svc-a")
                (tracking scenario "svc-a" (mkRPC HalfOpenStatus 0 0 0)) =
              Some (tt, m') /\
     record m' "svc-a" = Some (mkRPC HalfOpenStatus 0 1 0)).
Proof.
  assert (Hmax : int_max = 9223372036854775807) by reflexivity.
  destruct (C5_successes_close_half_open
              (tracking scenario "svc-a" (mkRPC HalfOpenStatus 0 0 0))
              "svc-a" (mkRPC HalfOpenStatus 0 0 0) 2 0)
    as [Hclose Hfew]; try reflexivity; try (rewrite Hmax; lia).
  split; [exact Hclose|]. apply (Hfew 1%nat). lia.
Defined.

(** C6: from [InitBreaker], every finite history of failures, successes,
    status reads and ticker passes runs to completion, and every record
    then in the registry is Closed with [OpenTime = 0] and [SuccCount = 0]:
    no Open or Half-Open record is ever stored.  The reason is in the
    first part: [setOpenStatus] leaves the registry and every existing
    cell as they were, the Open record going to a cell nothing points to. *)
Theorem C6_only_closed_records_reachable :
  (forall now p m,
      exists m', setOpenStatus now p m = Some (tt, m') /\
        breaker m' = breaker m /\
        (forall a rpc, cells m !! a = Some rpc -> cells m' !! a = Some rpc)) /\
  (forall c nowTime ops,
      exists m, run nowTime ops (InitBreaker c) = Some (tt, m) /\
        forall r p, R (breaker m) !! r = Some p ->
          exists rpc, record m r = Some rpc /\
            Status rpc = CloseStatus /\ OpenTime rpc = 0 /\ SuccCount rpc = 0).
Proof.
  split.
  - intros now p m. rewrite setOpenStatus_result. eexists.
    split; [reflexivity|]. split; [reflexivity|].
    intros a rpc H. simpl. apply lookup_app_l_Some. assumption.
  - intros c nowTime ops.
    destruct (run_all_idle nowTime ops 0 (InitBreaker c) (all_idle_InitBreaker c))
      as (m & E & _ & Hv & Hi).
    exists m. split; [assumption|].
    intros r p H.
    destruct (valid_record m r p Hv H) as (a & rpc & _ & _ & Hrec).
    exists rpc. split; [assumption|].
    destruct (Hi r rpc Hrec) as (Hs & Ho & Hc & _). auto.
Qed.

(** C7: [getStatus] returns Closed for a resource with no record in the
    registry, and the status of the stored record for a resource that has
    one; in both cases the call returns normally. *)
Theorem C7_getStatus_reads_registry (m : Mem) (r : string) :
  (R (breaker m) !! r = None -> getStatus r m = Some (CloseStatus, m)) /\
  (forall rpc, record m r = Some rpc -> getStatus r m = Some (Status rpc, m)).
Proof.
  split.
  - apply getStatus_absent.
  - intros rpc H. apply record_Some in H as (a & Ha & Hc).
    apply (getStatus_present r m a rpc); assumption.
Qed.

Lemma C7_getStatus_witness :
  getStatus "svc-b" (tracking scenario "svc-a" (openRPC 103)) =
    Some (CloseStatus, tracking scenario "svc-a" (openRPC 103)) /\
  getStatus "svc-a" (tracking scenario "svc-a" (openRPC 103)) =
    Some (OpenStatus, tracking scenario "svc-a" (openRPC 103)).
Proof.
  split.
  - apply (proj1 (C7_getStatus_reads_registry _ "svc-b")). reflexivity.
  - apply (proj2 (C7_getStatus_reads_registry _ "svc-a") (openRPC 103)).
    reflexivity.
Defined.

(** C8: a failure reported for a resource whose record is Open, and a
    success reported for a resource that has no record or whose record is
    Closed or Open, return with the memory exactly as it was: same
    registry, same cells, hence same status, counters and [OpenTime]. *)
Theorem C8_noop_calls (m : Mem) (r : string) (now : Z) :
  (forall rpc, record m r = Some rpc -> Status rpc = OpenStatus ->
               setFail now r m = Some (tt, m)) /\
  (R (breaker m) !! r = None -> setSucc r m = Some (tt, m)) /\
  (forall rpc, record m r = Some rpc ->
               Status rpc = CloseStatus \/ Status rpc = OpenStatus ->
               setSucc r m = Some (tt, m)).
Proof.
  split; [|split].
  - intros rpc H Hs. apply record_Some in H as (a & Ha & Hc).
    apply (setFail_open now r m a rpc); assumption.
  - apply setSucc_absent.
  - intros rpc H Hs. apply record_Some in H as (a & Ha & Hc).
    apply (setSucc_not_halfopen r m a rpc); try assumption.
    destruct Hs as [Hs|Hs]; rewrite Hs; discriminate.
Qed.

Lemma C8_noop_witness :
  setFail 200 "svc-a" (tracking scenario "svc-a" (openRPC 103)) =
    Some (tt, tracking scenario "svc-a" (openRPC 103)) /\
  setSucc "svc-b" (tracking scenario "svc-a" (openRPC 103)) =
    Some (tt, tracking scenario "svc-a" (openRPC 103)) /\
  setSucc "svc-a" (tracking scenario "svc-a" (openRPC 103)) =
    Some (tt, tracking scenario "svc-a" (openRPC 103)) /\
  setSucc "svc-a" (tracking scenario "svc-a" (mkRPC CloseStatus 2 0 0)) =
    Some (tt, tracking scenario "svc-a" (mkRPC CloseStatus 2 0 0)).
Proof.
  split; [|split; [|split]].
  - apply (proj1 (C8_noop_calls _ "svc-a" 200) (openRPC 103)); reflexivity.
  - apply (proj1 (proj2 (C8_noop_calls _ "svc-b" 0))). reflexivity.
  - apply (proj2 (proj2 (C8_noop_calls _ "svc-a" 0)) (openRPC 103)).
    + reflexivity.
    + right. reflexivity.
  - apply (proj2 (proj2 (C8_noop_calls _ "svc-a" 0)) (mkRPC CloseStatus 2 0 0)).
    + reflexivity.
    + left. reflexivity.
Defined.

(** C9, on the code: the failure counter is never reset, so
    [2^63] consecutive failures reported for one resource, from
    [InitBreaker], leave its record Closed with
    [FailCount = -9223372036854775808], a negative number. *)
Theorem C9_fail_count_wraps_negative :
  exists m, failures (replicate overflow_calls 0) "svc-a" (InitBreaker scenario) =
            Some (tt, m) /\
    record m "svc-a" = Some (mkRPC CloseStatus (-9223372036854775808) 0 0).
Proof.
  assert (Hn : exists n, overflow_calls = S n /\
                         Z.of_nat n = 9223372036854775807).
  { exists (Z.to_nat 9223372036854775807). unfold overflow_calls. split.
    - rewrite <- Z2Nat.inj_succ by lia. f_equal.
    - apply Z2Nat.id. lia. }
  destruct Hn as (n & -> & Hn).
  rewrite replicate_S.
  destruct (failures_on_fresh "svc-a" 0 (replicate n 0) (InitBreaker scenario))
    as (m & E & Hr).
  { apply lookup_empty. }
  exists m. split; [assumption|]. rewrite Hr.
  rewrite length_replicate, Hn. reflexivity.
Qed.

(** C10: [getStatus] is a pure read.  Whenever it returns, the memory it
    returns is the memory it was given; on a valid memory it does return;
    and its answer depends on nothing but the registry entry of the
    resource asked for and the cell that entry points to. *)
Theorem C10_getStatus_pure_read (m : Mem) (r : string) :
  (forall s m', getStatus r m = Some (s, m') -> m' = m) /\
  (valid m -> exists s, getStatus r m = Some (s, m)) /\
  (forall m2, R (breaker m2) !! r = R (breaker m) !! r ->
              record m2 r = record m r ->
              fst <$> getStatus r m2 = fst <$> getStatus r m).
Proof.
  split; [|split].
  - intros s m'. unfold getStatus. run_monad.
    destruct (R (breaker m) !! r) as [[|a]|]; simpl; try congruence.
    destruct (cells m !! a); congruence.
  - intros Hv. eexists. apply getStatus_spec. assumption.
  - intros m2 HR Hrec. unfold record in Hrec. rewrite HR in Hrec.
    unfold getStatus. run_monad. rewrite HR.
    destruct (R (breaker m) !! r) as [[|a]|]; simpl; try reflexivity.
    rewrite Hrec. destruct (cells m !! a); reflexivity.
Qed.

Lemma C10_getStatus_witness :
  tracking scenario "svc-a" (openRPC 103) = tracking scenario "svc-a" (openRPC 103) /\
  (exists s, getStatus "svc-a" (tracking scenario "svc-a" (openRPC 103)) =
             Some (s, tracking scenario "svc-a" (openRPC 103))) /\
  fst <$> getStatus "svc-a" (extend (tracking (mkConfig 1 1 0) "svc-a" (openRPC 103))
                                     [zeroRPC]) =
  fst <$> getStatus "svc-a" (tracking scenario "svc-a" (openRPC 103)).
Proof.
  split; [|split].
  - apply (proj1 (C10_getStatus_pure_read _ "svc-a") OpenStatus). reflexivity.
  - apply (proj1 (proj2 (C10_getStatus_pure_read _ "svc-a"))).
    apply valid_tracking.
  - apply (proj2 (proj2 (C10_getStatus_pure_read _ "svc-a"))); reflexivity.
Defined.

(** ** Further properties of the code *)

Lemma forEach_app {A} (body : A -> M unit) l1 l2 m :
  forEach body (l1 ++ l2) m =
  match forEach body l1 m with
  | Some (_, m') => forEach body l2 m'
  | None => None
  end.
Proof.
  revert m. induction l1 as [|x l1 IH]; intros m; simpl; [reflexivity|].
  unfold bind. destruct (body x m) as [[[] m1]|]; [apply IH | reflexivity].
Qed.

Lemma valid_keys m r :
  valid m -> is_Some (R (breaker m) !! r) <-> is_Some (record m r).
Proof.
  intros Hv. split.
  - intros [p Hp]. destruct (valid_record m r p Hv Hp) as (a & rpc & _ & _ & H).
    exists rpc. assumption.
  - intros [rpc H]. apply record_Some in H as (a & Ha & _). exists (Addr a).
    assumption.
Qed.

Lemma valid_tracking2 c r1 rpc1 r2 rpc2 : valid (tracking2 c r1 rpc1 r2 rpc2).
Proof. apply valid_rebind, valid_tracking. Qed.

(** Every step returns on a valid memory, keeps it valid, keeps the
    configuration, and changes the set of keys by at most the key of a
    reported failure. *)
Lemma exec_valid nowTime o m :
  valid m ->
  exists m', exec nowTime o m = Some (tt, m') /\ valid m' /\
    Conf (breaker m') = Conf (breaker m) /\
    forall r, is_Some (record m' r) <->
              is_Some (record m r) \/ exists now, o = RecordFailure now r.
Proof.
  intros Hv. destruct o as [now r|r|r|]; simpl.
  - destruct (setFail_spec now r m Hv) as (m' & E & Hv' & Hc & Hr).
    exists m'. split; [assumption|]. split; [assumption|]. split; [assumption|].
    intros r'. rewrite Hr. destruct (decide (r' = r)) as [->|Hne].
    + split; [intros _; right; exists now; reflexivity | intros _; eexists; reflexivity].
    + split; [auto | intros [H|[now' [= _ Heq]]]; [assumption | congruence]].
  - destruct (setSucc_spec r m Hv) as (m' & E & Hv' & Hc & Hr).
    exists m'. split; [assumption|]. split; [assumption|]. split; [assumption|].
    intros r'. rewrite Hr. destruct (decide (r' = r)) as [->|Hne].
    + rewrite fmap_is_Some. split; [auto | intros [H|[now' [=]]]; assumption].
    + split; [auto | intros [H|[now' [=]]]; assumption].
  - unfold bind. rewrite (getStatus_spec r m Hv).
    exists m. split; [reflexivity|]. split; [assumption|]. split; [reflexivity|].
    intros r'. split; [auto | intros [H|[now' [=]]]; assumption].
  - destruct (tickPass_spec nowTime m Hv) as (m' & E & Hv' & Hc & Hr).
    exists m'. split; [assumption|]. split; [assumption|]. split; [assumption|].
    intros r'. rewrite Hr, fmap_is_Some.
    split; [auto | intros [H|[now' [=]]]; assumption].
Qed.



(** X2: a history never removes a key from the registry and adds exactly
    the resources for which it reports a failure: successes, status reads
    and ticker passes create no record. *)
Theorem X2_only_failures_add_keys (nowTime : Z) (ops : list Op) (m : Mem) :
  valid m ->
  exists m', run nowTime ops m = Some (tt, m') /\
    forall r, is_Some (R (breaker m') !! r) <->
              is_Some (R (breaker m) !! r) \/
              exists now, RecordFailure now r ∈ ops.
Proof.
  unfold run. revert m. induction ops as [|o ops IH]; intros m Hv.
  - exists m. split; [reflexivity|]. intros r. split; [auto|].
    intros [H|[now H]]; [assumption|]. apply not_elem_of_nil in H. contradiction.
  - destruct (exec_valid nowTime o m Hv) as (m1 & E1 & Hv1 & _ & Hk1).
    destruct (IH m1 Hv1) as (m2 & E2 & Hk2).
    exists m2. split.
    + simpl. rewrite (bind_Some _ _ _ _ _ E1). assumption.
    + intros r. rewrite Hk2, (valid_keys m1 r Hv1), Hk1, (valid_keys m r Hv).
      split.
      * intros [[H|[now ->]]|[now H]]; [left; assumption | right | right].
        -- exists now. left.
        -- exists now. right. assumption.
      * intros [H|[now H]]; [left; left; assumption|].
        apply elem_of_cons in H as [<-|H].
        -- left. right. exists now. reflexivity.
        -- right. exists now. assumption.
Qed.

Lemma X2_keys_witness :
  exists m', run 100 [RecordSuccess "svc-c"; RecordFailure 101 "svc-b"; Tick;
                      GetStatus "svc-d"]
               (tracking scenario "svc-a" (openRPC 103)) = Some (tt, m') /\
    forall r, is_Some (R (breaker m') !! r) <->
              is_Some (R (breaker (tracking scenario "svc-a" (openRPC 103))) !! r) \/
              exists now, RecordFailure now r ∈
                [RecordSuccess "svc-c"; RecordFailure 101 "svc-b"; Tick;
                 GetStatus "svc-d"].
Proof.
  apply (X2_only_failures_add_keys 100 _ (tracking scenario "svc-a" (openRPC 103))).
  apply valid_tracking.
Defined.

(** X3: a reported failure is invisible to [getStatus]: on a valid memory
    [setFail] returns, and afterwards [getStatus] answers for every
    resource, the one the failure was about included, what it answered
    before. *)
Theorem X3_setFail_invisible_to_getStatus (m : Mem) (now : Z) (r : string) :
  valid m ->
  exists m', setFail now r m = Some (tt, m') /\
    forall r', fst <$> getStatus r' m' = fst <$> getStatus r' m.
Proof.
  intros Hv.
  destruct (setFail_spec now r m Hv) as (m' & E & Hv' & _ & Hr).
  exists m'. split; [assumption|]. intros r'.
  rewrite (getStatus_spec r' m' Hv'), (getStatus_spec r' m Hv). simpl.
  rewrite Hr. destruct (decide (r' = r)) as [->|_]; [|reflexivity].
  unfold afterFail. destruct (record m r) as [rpc|].
  - destruct (isClose rpc); reflexivity.
  - destruct (FailThreshold (Conf (breaker m)) =? 1); reflexivity.
Qed.

Lemma X3_setFail_witness :
  exists m', setFail 200 "svc-a"
               (tracking (mkConfig 1 1 0) "svc-a" (mkRPC HalfOpenStatus 0 0 0)) =
             Some (tt, m') /\
    forall r', fst <$> getStatus r' m' =
               fst <$> getStatus r'
                 (tracking (mkConfig 1 1 0) "svc-a" (mkRPC HalfOpenStatus 0 0 0)).
Proof.
  apply (X3_setFail_invisible_to_getStatus
           (tracking (mkConfig 1 1 0) "svc-a" (mkRPC HalfOpenStatus 0 0 0))
           200 "svc-a").
  apply valid_tracking.
Defined.

(** X4: resources are independent: on a valid memory a failure or a
    success reported for [r] leaves the record of every other resource
    (status, both counters, [OpenTime]) as it was. *)
Theorem X4_calls_touch_one_resource (m : Mem) (now : Z) (r r' : string) :
  valid m -> r' <> r ->
  (exists m1, setFail now r m = Some (tt, m1) /\ record m1 r' = record m r') /\
  (exists m2, setSucc r m = Some (tt, m2) /\ record m2 r' = record m r').
Proof.
  intros Hv Hne. split.
  - destruct (setFail_spec now r m Hv) as (m' & E & _ & _ & Hr).
    exists m'. split; [assumption|]. rewrite Hr.
    rewrite decide_False by assumption. reflexivity.
  - destruct (setSucc_spec r m Hv) as (m' & E & _ & _ & Hr).
    exists m'. split; [assumption|]. rewrite Hr.
    rewrite decide_False by assumption. reflexivity.
Qed.

Lemma X4_calls_witness :
  (exists m1, setFail 200 "svc-a"
                (tracking2 scenario "svc-a" (mkRPC CloseStatus 2 0 0)
                           "svc-b" (mkRPC HalfOpenStatus 0 1 0)) = Some (tt, m1) /\
     record m1 "svc-b" = Some (mkRPC HalfOpenStatus 0 1 0)) /\
  (exists m2, setSucc "svc-b"
                (tracking2 scenario "svc-a" (mkRPC CloseStatus 2 0 0)
                           "svc-b" (mkRPC HalfOpenStatus 0 1 0)) = Some (tt, m2) /\
     record m2 "svc-a" = Some (mkRPC CloseStatus 2 0 0)).
Proof.
  split.
  - apply (proj1 (X4_calls_touch_one_resource
                    (tracking2 scenario "svc-a" (mkRPC CloseStatus 2 0 0)
                               "svc-b" (mkRPC HalfOpenStatus 0 1 0))
                    200 "svc-a" "svc-b" (valid_tracking2 _ _ _ _ _) ltac:(discriminate))).
  - apply (proj2 (X4_calls_touch_one_resource
                    (tracking2 scenario "svc-a" (mkRPC CloseStatus 2 0 0)
                               "svc-b" (mkRPC HalfOpenStatus 0 1 0))
                    0 "svc-b" "svc-a" (valid_tracking2 _ _ _ _ _) ltac:(discriminate))).
Defined.

(** X5: the order in which the [range] loop of a ticker pass visits the
    registry does not matter: whatever permutation of the entries is
    visited, the pass returns and leaves every resource with the record
    that [tickPass] leaves. *)
Theorem X5_ticker_order_irrelevant
    (m : Mem) (nowTime : Z) (l : list (string * Ptr)) :
  valid m -> l ≡ₚ map_to_list (R (breaker m)) ->
  exists m1 m2,
    forEach (tickEntry nowTime) l m = Some (tt, m1) /\
    tickPass nowTime m = Some (tt, m2) /\
    forall r, record m1 r = record m2 r.
Proof.
  intros Hv Hperm.
  destruct (tickPass_spec nowTime m Hv) as (m2 & E2 & _ & _ & Hr2).
  destruct (tickLoop_spec nowTime l m Hv) as (m1 & E1 & _ & _ & Hr1 & _).
  { rewrite Hperm. apply NoDup_fst_map_to_list. }
  { intros k p Hin. rewrite Hperm in Hin. apply elem_of_map_to_list. assumption. }
  exists m1, m2. split; [assumption|]. split; [assumption|].
  intros r. rewrite Hr1, Hr2. destruct (decide _) as [|Hn]; [reflexivity|].
  destruct (record m r) as [rpc|] eqn:Hrec; [|reflexivity].
  exfalso. apply Hn. apply record_Some in Hrec as (a & Ha & _).
  apply list_elem_of_fmap. exists (r, Addr a). split; [reflexivity|].
  rewrite Hperm. apply elem_of_map_to_list. assumption.
Qed.

Lemma X5_ticker_order_witness :
  exists m1 m2,
    forEach (tickEntry 100)
      (reverse (map_to_list (R (breaker
         (tracking2 scenario "svc-a" (openRPC 103) "svc-b" (openRPC 50))))))
      (tracking2 scenario "svc-a" (openRPC 103) "svc-b" (openRPC 50)) =
      Some (tt, m1) /\
    tickPass 100 (tracking2 scenario "svc-a" (openRPC 103) "svc-b" (openRPC 50)) =
      Some (tt, m2) /\
    forall r, record m1 r = record m2 r.
Proof.
  apply X5_ticker_order_irrelevant.
  - apply valid_tracking2.
  - apply reverse_Permutation.
Defined.

Lemma afterTick_idem c nowTime rpc :
  afterTick c nowTime (afterTick c nowTime rpc) = afterTick c nowTime rpc.
Proof.
  unfold afterTick at 2 3.
  destruct (isOpen rpc && (nowTime <? add64 (OpenTime rpc) (OpenTimeout c))) eqn:E.
  - reflexivity.
  - unfold afterTick. rewrite E. reflexivity.
Qed.

Lemma tickPass_again nowTime n :
  forall m,
    valid m ->
    (forall r rpc, record m r = Some rpc ->
                   afterTick (Conf (breaker m)) nowTime rpc = rpc) ->
    exists m', times n (tickPass nowTime) m = Some (tt, m') /\
      forall r, record m' r = record m r.
Proof.
  induction n as [|n IH]; intros m Hv Hst.
  - exists m. split; reflexivity.
  - destruct (tickPass_spec nowTime m Hv) as (m1 & E1 & Hv1 & Hc1 & Hr1).
    assert (Hsame : forall r, record m1 r = record m r).
    { intros r. rewrite Hr1. destruct (record m r) as [rpc|] eqn:E; [|reflexivity].
      simpl. rewrite (Hst r rpc E). reflexivity. }
    destruct (IH m1 Hv1) as (m2 & E2 & Hr2).
    { intros r rpc. rewrite Hsame, Hc1. apply Hst. }
    exists m2. split.
    + simpl. rewrite (bind_Some _ _ _ _ _ E1). assumption.
    + intros r. rewrite Hr2. apply Hsame.
Qed.

(** X6: ticker passes of one goroutine are idempotent: on a valid memory
    any number [n + 1] of consecutive passes returns and leaves every
    resource with the record that the first pass alone leaves. *)
Theorem X6_ticker_passes_idempotent (m : Mem) (nowTime : Z) (n : nat) :
  valid m ->
  exists m1 mn,
    tickPass nowTime m = Some (tt, m1) /\
    times (S n) (tickPass nowTime) m = Some (tt, mn) /\
    forall r, record mn r = record m1 r.
Proof.
  intros Hv.
  destruct (tickPass_spec nowTime m Hv) as (m1 & E1 & Hv1 & Hc1 & Hr1).
  destruct (tickPass_again nowTime n m1 Hv1) as (mn & En & Hrn).
  { intros r rpc. rewrite Hr1, Hc1.
    destruct (record m r) as [rpc0|]; [|discriminate].
    simpl. intros [= <-]. apply afterTick_idem. }
  exists m1, mn. split; [assumption|]. split; [|assumption].
  simpl. rewrite (bind_Some _ _ _ _ _ E1). assumption.
Qed.

Lemma X6_ticker_passes_witness :
  exists m1 mn,
    tickPass 100 (tracking2 scenario "svc-a" (openRPC 103) "svc-b" (openRPC 50)) =
      Some (tt, m1) /\
    times 3 (tickPass 100)
      (tracking2 scenario "svc-a" (openRPC 103) "svc-b" (openRPC 50)) =
      Some (tt, mn) /\
    forall r, record mn r = record m1 r.
Proof.
  apply (X6_ticker_passes_idempotent _ 100 2). apply valid_tracking2.
Defined.

Lemma failureCount_snoc r ops o :
  failureCount r (ops ++ [o]) =
  (failureCount r ops + failureCount r [o])%nat.
Proof.
  induction ops as [|o' ops IH]; [simpl; lia|].
  destruct o'; simpl in *; rewrite IH; lia.
Qed.

(** X7: the registry after a history from [InitBreaker] is determined by
    the failures in it alone.  The history returns; a resource has a
    record exactly when at least one failure was reported for it; the
    record is then Closed with [SuccCount = 0], [OpenTime = 0] and
    [FailCount] the number of failures reported for it (one less when
    [FailThreshold = 1]), wrapped to an [int].  Successes, status reads and
    ticker passes, wherever they occur in the history, and the threshold
    being reached, change nothing. *)
Theorem X7_registry_counts_failures (c : Config) (nowTime : Z) (ops : list Op) :
  exists m, run nowTime ops (InitBreaker c) = Some (tt, m) /\
    valid m /\ Conf (breaker m) = c /\
    forall r,
      record m r =
      match failureCount r ops with
      | O => None
      | S k => Some (mkRPC CloseStatus
                       (wrap (Z.of_nat k + (if FailThreshold c =? 1 then 0 else 1)))
                       0 0)
      end.
Proof.
  induction ops as [|o ops IH] using rev_ind.
  - exists (InitBreaker c). split; [reflexivity|].
    split; [apply valid_InitBreaker|]. split; [reflexivity|].
    intros r. apply record_absent, lookup_empty.
  - destruct IH as (m & E & Hv & Hc & Hr).
    unfold run in *. rewrite forEach_app, E. simpl.
    assert (Hst : forall r rpc, record m r = Some rpc -> Status rpc = CloseStatus).
    { intros r rpc H. rewrite Hr in H.
      destruct (failureCount r ops); [discriminate|]. injection H as <-. reflexivity. }
    destruct o as [now r0|r0|r0|]; simpl.
    + destruct (setFail_spec now r0 m Hv) as (m' & E' & Hv' & Hc' & Hr').
      unfold bind. rewrite E'. exists m'. split; [reflexivity|].
      split; [assumption|]. split; [congruence|].
      intros r. rewrite Hr', failureCount_snoc. simpl.
      destruct (decide (r = r0)) as [->|Hne].
      * rewrite decide_True by reflexivity. rewrite Hr, Hc.
        replace (failureCount r0 ops + (1 + 0))%nat with (S (failureCount r0 ops)) by lia.
        destruct (failureCount r0 ops) as [|k]; simpl.
        -- destruct (FailThreshold c =? 1); reflexivity.
        -- unfold isClose, withFail. simpl. rewrite incr_wrap.
           do 3 f_equal. lia.
      * rewrite decide_False by congruence. rewrite Hr.
        replace (failureCount r ops + (0 + 0))%nat with (failureCount r ops) by lia.
        reflexivity.
    + destruct (setSucc_spec r0 m Hv) as (m' & E' & Hv' & Hc' & Hr').
      unfold bind. rewrite E'. exists m'. split; [reflexivity|].
      split; [assumption|]. split; [congruence|].
      intros r. rewrite failureCount_snoc. simpl. rewrite Nat.add_0_r, <- Hr, Hr'.
      destruct (decide (r = r0)) as [->|]; [|reflexivity].
      destruct (record m r0) as [rpc|] eqn:E0; [|reflexivity].
      simpl. unfold afterSucc, isHalfOpen. rewrite (Hst r0 rpc E0). reflexivity.
    + unfold bind. rewrite (getStatus_spec r0 m Hv). exists m.
      split; [reflexivity|]. split; [assumption|]. split; [assumption|].
      intros r. rewrite failureCount_snoc. simpl. rewrite Nat.add_0_r. apply Hr.
    + destruct (tickPass_spec nowTime m Hv) as (m' & E' & Hv' & Hc' & Hr').
      unfold bind. rewrite E'. exists m'. split; [reflexivity|].
      split; [assumption|]. split; [congruence|].
      intros r. rewrite failureCount_snoc. simpl. rewrite Nat.add_0_r, <- Hr, Hr'.
      destruct (record m r) as [rpc|] eqn:E0; [|reflexivity].
      simpl. unfold afterTick, isOpen. rewrite (Hst r rpc E0). reflexivity.
Qed.

(** X8: the breaker never trips: after any history from [InitBreaker],
    whatever the configuration and however many failures were reported,
    [getStatus] answers Closed for every resource. *)
Theorem X8_breaker_never_trips
    (c : Config) (nowTime : Z) (ops : list Op) (r : string) :
  exists m, run nowTime ops (InitBreaker c) = Some (tt, m) /\
    getStatus r m = Some (CloseStatus, m).
Proof.
  destruct (run_all_idle nowTime ops 0 (InitBreaker c) (all_idle_InitBreaker c))
    as (m & E & _ & Hv & Hi).
  exists m. split; [assumption|].
  rewrite (getStatus_spec r m Hv).
  destruct (record m r) as [rpc|] eqn:Hrec; [|reflexivity].
  destruct (Hi r rpc Hrec) as (-> & _). reflexivity.
Qed.

Lemma forEach_panics {A} (body : A -> M unit) (x : A) (l : list A) :
  (forall m, body x m = None) -> x ∈ l ->
  forall m, forEach body l m = None.
Proof.
  intros Hx. induction l as [|y l IH]; intros Hin m.
  - apply not_elem_of_nil in Hin. contradiction.
  - simpl. unfold bind. apply elem_of_cons in Hin as [<-|Hin].
    + rewrite Hx. reflexivity.
    + destruct (body y m) as [[[] m1]|]; [apply IH; assumption | reflexivity].
Qed.

(** X9: a nil pointer in the registry is fatal: if the registry maps [r]
    to nil, then [getStatus], [setFail] and [setSucc] called for [r] each
    panic, and so does every ticker pass. *)
Theorem X9_nil_entry_panics (m : Mem) (r : string) (now nowTime : Z) :
  R (breaker m) !! r = Some Nil ->
  getStatus r m = None /\ setFail now r m = None /\ setSucc r m = None /\
  tickPass nowTime m = None.
Proof.
  intros H. repeat split.
  - unfold getStatus. run_monad. rewrite H. reflexivity.
  - unfold setFail. run_monad. rewrite H. reflexivity.
  - unfold setSucc. run_monad. rewrite H. reflexivity.
  - unfold tickPass. apply (forEach_panics _ (r, Nil)).
    + intros m'. reflexivity.
    + apply elem_of_map_to_list. assumption.
Qed.

Lemma X9_nil_entry_witness :
  getStatus "svc-a" (mkMem [] (mkBreaker scenario {[ "svc-a" := Nil ]})) = None /\
  setFail 100 "svc-a" (mkMem [] (mkBreaker scenario {[ "svc-a" := Nil ]})) = None /\
  setSucc "svc-a" (mkMem [] (mkBreaker scenario {[ "svc-a" := Nil ]})) = None /\
  tickPass 100 (mkMem [] (mkBreaker scenario {[ "svc-a" := Nil ]})) = None.
Proof.
  apply (X9_nil_entry_panics (mkMem [] (mkBreaker scenario {[ "svc-a" := Nil ]}))
           "svc-a" 100 100).
  reflexivity.
Defined.

(** X10: the recovery path composes.  Take an Open record that a ticker
    pass demotes ([nowTime < OpenTime + OpenTimeout], the sum fitting an
    [int64]).  The pass followed by [max 1 SuccThreshold] successes
    reported for the resource returns and leaves the record Closed with
    both counters and [OpenTime] at 0.  A threshold of 1, 0 or below is
    met by the first success. *)
Theorem X10_demoted_record_recovers
    (m : Mem) (nowTime : Z) (r : string) (rpc : RPC) :
  valid m -> record m r = Some rpc -> Status rpc = OpenStatus ->
  in_int (OpenTime rpc + OpenTimeout (Conf (breaker m))) ->
  nowTime < OpenTime rpc + OpenTimeout (Conf (breaker m)) ->
  SuccThreshold (Conf (breaker m)) <= int_max ->
  exists m',
    (tickPass nowTime ;;
     times (Z.to_nat (Z.max 1 (SuccThreshold (Conf (breaker m))))) (setSucc r)) m =
    Some (tt, m') /\
    record m' r = Some (mkRPC CloseStatus 0 0 0).
Proof.
  intros Hv H Hs Hin Hlt Hmax.
  destruct (tickPass_spec nowTime m Hv) as (m1 & E1 & _ & Hc1 & Hr1).
  assert (Hhalf : record m1 r = Some halfOpenRPC).
  { rewrite Hr1, H. simpl. unfold afterTick, isOpen, add64.
    rewrite (wrap_small _ Hin), bool_decide_eq_true_2 by assumption. simpl.
    destruct (Z.ltb_spec nowTime (OpenTime rpc + OpenTimeout (Conf (breaker m))));
      [reflexivity | lia]. }
  destruct (successes_reach_threshold r
              (Z.to_nat (Z.max 1 (SuccThreshold (Conf (breaker m)))))
              m1 halfOpenRPC Hhalf) as (m2 & E2 & Hr2);
    try rewrite Hc1; simpl; try reflexivity; try assumption; try lia.
  { destruct int_constants as (_ & -> & _). lia. }
  exists m2. split; [|assumption].
  rewrite (bind_Some _ _ _ _ _ E1). assumption.
Qed.

Lemma X10_recovery_witness :
  exists m',
    (tickPass 100 ;; times 2 (setSucc "svc-a"))
      (tracking scenario "svc-a" (openRPC 103)) = Some (tt, m') /\
    record m' "svc-a" = Some (mkRPC CloseStatus 0 0 0).
Proof.
  assert (Hmin : int_min = -9223372036854775808) by reflexivity.
  assert (Hmax : int_max = 9223372036854775807) by reflexivity.
  apply (X10_demoted_record_recovers
           (tracking scenario "svc-a" (openRPC 103)) 100 "svc-a" (openRPC 103)).
  - apply valid_tracking.
  - reflexivity.
  - reflexivity.
  - unfold in_int. rewrite Hmin, Hmax. simpl. lia.
  - simpl. lia.
  - rewrite Hmax. simpl. lia.
Defined.

(** X11: the sum in the ticker's test can overflow.  For an Open record
    whose [OpenTime] and the configured [OpenTimeout] each fit an [int64]
    but whose sum exceeds the largest [int64], the sum wraps to a negative
    number, and a goroutine started at a time [nowTime >= 0] leaves the
    record Open on every pass. *)
Theorem X11_timeout_overflow_keeps_open
    (m : Mem) (nowTime : Z) (r : string) (rpc : RPC) :
  valid m -> record m r = Some rpc -> Status rpc = OpenStatus ->
  in_int (OpenTime rpc) -> in_int (OpenTimeout (Conf (breaker m))) ->
  int_max < OpenTime rpc + OpenTimeout (Conf (breaker m)) ->
  0 <= nowTime ->
  exists m', tickPass nowTime m = Some (tt, m') /\ record m' r = Some rpc.
Proof.
  intros Hv H Hs Hi1 Hi2 Hover Hnow.
  destruct (tickPass_spec nowTime m Hv) as (m' & E & _ & _ & Hr).
  exists m'. split; [assumption|].
  rewrite Hr, H. simpl. unfold afterTick.
  assert (Hneg : add64 (OpenTime rpc) (OpenTimeout (Conf (breaker m))) < 0).
  { unfold add64, wrap, in_int in *.
    destruct int_constants as (Hmin & Hmax & Hpow).
    rewrite Hmin, Hmax in *. rewrite Hpow.
    set (s := OpenTime rpc + OpenTimeout (Conf (breaker m))) in *.
    replace (s - -9223372036854775808)
      with ((s - 9223372036854775808) + 1 * 18446744073709551616) by lia.
    rewrite Z_mod_plus_full, Z.mod_small; lia. }
  destruct (Z.ltb_spec nowTime (add64 (OpenTime rpc) (OpenTimeout (Conf (breaker m)))));
    [lia|].
  rewrite andb_false_r. reflexivity.
Qed.

Lemma X11_timeout_overflow_witness :
  exists m', tickPass 100
               (tracking (mkConfig 3 2 9223372036854775807) "svc-a" (openRPC 103)) =
             Some (tt, m') /\
    record m' "svc-a" = Some (openRPC 103).
Proof.
  assert (Hmin : int_min = -9223372036854775808) by reflexivity.
  assert (Hmax : int_max = 9223372036854775807) by reflexivity.
  apply (X11_timeout_overflow_keeps_open
           (tracking (mkConfig 3 2 9223372036854775807) "svc-a" (openRPC 103))
           100 "svc-a" (openRPC 103)).
  - apply valid_tracking.
  - reflexivity.
  - reflexivity.
  - unfold in_int. rewrite Hmin, Hmax. simpl. lia.
  - unfold in_int. rewrite Hmin, Hmax. simpl. lia.
  - rewrite Hmax. simpl. lia.
  - lia.
Defined.

